(** * download_assets.py: the Webflow migration script

    A shallow embedding of [src/download_assets.py] and the properties its
    specification states about it.

    Python [str] values are lists of Unicode code points; the functions of
    the script become functions on such lists.  The two library calls the
    script makes on text, [urllib.parse.urlparse] and [re.findall], are
    embedded from their CPython 3.11 definitions, restricted to what the
    script reads from them (the [path] of a parse, the matches of the two
    literal-prefix patterns).  The outside world (disk, network, console)
    is an explicit state threaded through [download_asset] and [main]. *)

From Stdlib Require Import NArith String Ascii List Lia Permutation.
From stdpp Require Import base decidable option list numbers gmap sorting.

Local Open Scope N_scope.

(** ** Python strings *)

Module PyStr.

Definition char := N.
Definition pystr := list char.

(** A code point from a character literal, a [str] from a string literal. *)
Definition ch (a : ascii) : char := N_of_ascii a.
Definition py (s : string) : pystr := map N_of_ascii (list_ascii_of_string s).

(** [c in chars] for a one-character [c]. *)
Definition char_in (c : char) (chars : pystr) : bool :=
  existsb (N.eqb c) chars.

(** [s.startswith(p)] *)
Fixpoint startswith (s p : pystr) : bool :=
  match p, s with
  | [], _ => true
  | _ :: _, [] => false
  | a :: p', b :: s' => (a =? b) && startswith s' p'
  end.

(** [needle in hay] *)
Fixpoint contains (needle hay : pystr) : bool :=
  startswith hay needle ||
  match hay with
  | [] => false
  | _ :: hay' => contains needle hay'
  end.

(** [s.lstrip(chars)] *)
Fixpoint lstrip (chars s : pystr) : pystr :=
  match s with
  | [] => []
  | c :: s' => if char_in c chars then lstrip chars s' else s
  end.

(** [s.split(sep)] for a one-character separator: the script only splits
    on ['/'] and ['?'].  The result is never empty. *)
Fixpoint split (sep : char) (s : pystr) : list pystr :=
  match s with
  | [] => [[]]
  | c :: s' =>
      if c =? sep then [] :: split sep s'
      else match split sep s' with
           | p :: ps => (c :: p) :: ps
           | [] => [[c]]
           end
  end.

(** [parts[-1]] and [parts[0]] of a split. *)
Definition last_part (parts : list pystr) : pystr := List.last parts [].
Definition first_part (parts : list pystr) : pystr := List.hd [] parts.

(** [s.find(c)] and [s.rfind(c)] for a one-character [c]; [None] is -1. *)
Fixpoint find (c : char) (s : pystr) : option nat :=
  match s with
  | [] => None
  | a :: s' => if a =? c then Some O else S <$> find c s'
  end.

Fixpoint rfind (c : char) (s : pystr) : option nat :=
  match s with
  | [] => None
  | a :: s' =>
      match rfind c s' with
      | Some i => Some (S i)
      | None => if a =? c then Some O else None
      end
  end.

(** [s.find(c, start)] *)
Definition find_from (c : char) (start : nat) (s : pystr) : option nat :=
  (fun i => (start + i)%nat) <$> find c (drop start s).

(** [s.split(c, 1)[0]] when [c in s], and [s] itself otherwise: the text
    before the first [c]. *)
Definition before_first (c : char) (s : pystr) : pystr :=
  match find c s with
  | Some i => take i s
  | None => s
  end.

(** [s.replace(old, new)]: every occurrence, left to right, without
    overlap.  [skip] counts the characters of a match still to be passed.
    For an empty [old] Python puts [new] before every character and at the
    end. *)
Fixpoint replace_from (skip : nat) (s old new : pystr) : pystr :=
  match s with
  | [] => []
  | c :: s' =>
      match skip with
      | S k => replace_from k s' old new
      | O =>
          if startswith s old
          then new ++ replace_from (length old - 1) s' old new
          else c :: replace_from O s' old new
      end
  end.

Definition replace (s old new : pystr) : pystr :=
  match old with
  | [] => new ++ flat_map (fun c => c :: new) s
  | _ :: _ => replace_from O s old new
  end.

(** [s.isascii()] and [s.lower()] on the ASCII letters. *)
Definition isascii (s : pystr) : bool := forallb (fun c => c <? 128) s.

Definition lower_char (c : char) : char :=
  if (65 <=? c) && (c <=? 90) then c + 32 else c.

Definition is_ascii_alpha (c : char) : bool :=
  ((65 <=? c) && (c <=? 90)) || ((97 <=? c) && (c <=? 122)).

(** [sorted] compares strings code point by code point. *)
Fixpoint str_le (a b : pystr) : bool :=
  match a, b with
  | [], _ => true
  | _ :: _, [] => false
  | x :: a', y :: b' => (x <? y) || ((x =? y) && str_le a' b')
  end.

End PyStr.
Export PyStr.

(** ** Exceptions *)

(** A raised exception: its class and its message ([str(e)]). *)
Inductive exn := Exn (cls : string) (msg : pystr).

Definition str_of_exn (e : exn) : pystr :=
  match e with Exn _ msg => msg end.

Inductive result (A : Type) :=
| Ok (a : A)
| Raise (e : exn).
Arguments Ok {A} a.
Arguments Raise {A} e.

Definition rbind {A B} (r : result A) (k : A -> result B) : result B :=
  match r with
  | Ok a => k a
  | Raise e => Raise e
  end.

Global Instance result_fmap : FMap result := fun A B f r =>
  match r with
  | Ok a => Ok (f a)
  | Raise e => Raise e
  end.

(** ** urllib.parse.urlparse *)

Module UrlParse.

Record SplitResult := mkSplit {
  scheme : pystr;
  netloc : pystr;
  path : pystr;
  query : pystr;
  fragment : pystr
}.

Definition uses_params : list pystr :=
  map py [""; "ftp"; "hdl"; "prospero"; "http"; "imap"; "https"; "shttp";
          "rtsp"; "rtspu"; "sip"; "sips"; "mms"; "sftp"; "tel"]%string.

Definition scheme_chars : pystr :=
  py "abcdefghijklmnopqrstuvwxyzABCDEFGHIJKLMNOPQRSTUVWXYZ0123456789+-.".

(** [_WHATWG_C0_CONTROL_OR_SPACE]: the code points 0 to 32. *)
Definition C0_CONTROL_OR_SPACE : pystr := map N.of_nat (seq 0 33).

(** [_UNSAFE_URL_BYTES_TO_REMOVE]: tab, carriage return, line feed. *)
Definition UNSAFE_URL_BYTES_TO_REMOVE : list pystr := [[9]; [13]; [10]].

(** The text after [start] up to the first of ['/'], ['?'], ['#'], and the
    rest from that delimiter on. *)
Fixpoint span_netloc (s : pystr) : pystr * pystr :=
  match s with
  | [] => ([], [])
  | c :: s' =>
      if char_in c (py "/?#") then ([], s)
      else let '(n, r) := span_netloc s' in (c :: n, r)
  end.

Definition _splitnetloc (url : pystr) (start : nat) : pystr * pystr :=
  span_netloc (drop start url).

Definition _splitparams (url : pystr) : pystr :=
  match rfind (ch "/") url with
  | Some j =>
      match find_from (ch ";") j url with
      | Some i => take i url
      | None => url
      end
  | None =>
      match find (ch ";") url with
      | Some i => take i url
      | None => removelast url
      end
  end.

(** Two checks of [urlsplit] consult code that is not part of the parser's
    text: [unicodedata.normalize('NFKC', _)], and [_check_bracketed_netloc],
    which validates a bracketed host with the [ipaddress] module and raises
    [ValueError] when it is not an address.  Both are taken as given. *)
Class LibraryTables := {
  NFKC : pystr -> pystr;
  _check_bracketed_netloc : pystr -> result unit
}.

Section Parser.
Context `{LibraryTables}.

Definition _checknetloc (netloc : pystr) : result unit :=
  if bool_decide (netloc = []) || isascii netloc then Ok tt
  else
    let n := replace netloc (py "@") [] in
    let n := replace n (py ":") [] in
    let n := replace n (py "#") [] in
    let n := replace n (py "?") [] in
    let netloc2 := NFKC n in
    if bool_decide (n = netloc2) then Ok tt
    else if existsb (fun c => char_in c netloc2) (py "/?#@:")
         then Raise (Exn "ValueError"
                (py "netloc '" ++ netloc ++
                 py "' contains invalid characters under NFKC normalization"))
         else Ok tt.

Definition urlsplit (url0 : pystr) : result SplitResult :=
  let url := lstrip C0_CONTROL_OR_SPACE url0 in
  let url := fold_left (fun u b => replace u b []) UNSAFE_URL_BYTES_TO_REMOVE url in
  let '(scheme, url) :=
    match find (ch ":") url with
    | Some i =>
        if bool_decide (0 < i)%nat && is_ascii_alpha (List.hd 0 url)
           && forallb (fun c => char_in c scheme_chars) (take i url)
        then (map lower_char (take i url), drop (i + 1) url)
        else ([], url)
    | None => ([], url)
    end in
  rbind
    (if bool_decide (take 2 url = py "//") then
       let '(netloc, url) := _splitnetloc url 2 in
       if (char_in (ch "[") netloc && negb (char_in (ch "]") netloc))
          || (char_in (ch "]") netloc && negb (char_in (ch "[") netloc))
       then Raise (Exn "ValueError" (py "Invalid IPv6 URL"))
       else
         rbind (if char_in (ch "[") netloc && char_in (ch "]") netloc
                then _check_bracketed_netloc netloc else Ok tt)
               (fun _ => Ok (netloc, url))
     else Ok ([], url))
    (fun '(netloc, url) =>
       let fragment := match find (ch "#") url with
                       | Some i => drop (S i) url | None => [] end in
       let url := before_first (ch "#") url in
       let query := match find (ch "?") url with
                    | Some i => drop (S i) url | None => [] end in
       let url := before_first (ch "?") url in
       rbind (_checknetloc netloc) (fun _ =>
         Ok (mkSplit scheme netloc url query fragment))).

(** [urlparse(url).path] *)
Definition urlparse_path (url : pystr) : result pystr :=
  rbind (urlsplit url) (fun r =>
    if bool_decide (scheme r ∈ uses_params) && char_in (ch ";") (path r)
    then Ok (_splitparams (path r))
    else Ok (path r)).

End Parser.
End UrlParse.

(** ** The script *)

Definition HTML_FILE : pystr := py "index.html".
Definition OUTPUT_DIR : pystr := py "breathscape-site".

(** *** extract_cdn_urls *)

(** The characters the negated class of both patterns excludes: the double
    quote, [\s], [)] and [>].  On [str] patterns [\s] is Unicode white
    space. *)
Definition is_space (c : char) : bool :=
  ((9 <=? c) && (c <=? 13)) || ((28 <=? c) && (c <=? 32))
  || (c =? 133) || (c =? 160) || (c =? 5760)
  || ((8192 <=? c) && (c <=? 8202))
  || (c =? 8232) || (c =? 8233) || (c =? 8239) || (c =? 8287) || (c =? 12288).

Definition is_terminator (c : char) : bool :=
  (c =? 34) || is_space c || (c =? ch ")") || (c =? ch ">").

(** The longest run of class characters at the head of [s] (the greedy
    [+], which nothing follows in the pattern). *)
Fixpoint class_run (s : pystr) : pystr :=
  match s with
  | [] => []
  | c :: s' => if is_terminator c then [] else c :: class_run s'
  end.

(** A match of [host] followed by one or more class characters, anchored
    at the head of [s]. *)
Definition match_here (host s : pystr) : option pystr :=
  if startswith s host then
    match class_run (drop (length host) s) with
    | [] => None
    | run => Some (host ++ run)
    end
  else None.

(** [re.findall] for the pattern [host] followed by the class with [+]: the
    matches of a scan from left to right; the scan resumes where a match
    ended.  [skip] counts the
    characters of the last match still to be passed. *)
Fixpoint findall_from (skip : nat) (host s : pystr) : list pystr :=
  match s with
  | [] => []
  | _ :: s' =>
      match skip with
      | S k => findall_from k host s'
      | O =>
          match match_here host s with
          | Some m => m :: findall_from (length m - 1) host s'
          | None => findall_from O host s'
          end
      end
  end.

Definition findall (host s : pystr) : list pystr := findall_from O host s.

Definition pattern : pystr := py "https://cdn.prod.website-files.com/".
Definition pattern2 : pystr := py "https://d3e54v103j8qbb.cloudfront.net/".

Definition extract_cdn_urls (html_content : pystr) : gset pystr :=
  let urls : gset pystr := list_to_set (findall pattern html_content) in
  urls ∪ list_to_set (findall pattern2 html_content).

(** [sorted(urls)] *)
Definition str_leb (a b : pystr) : Prop := str_le a b = true.
Global Instance str_leb_dec a b : Decision (str_leb a b).
Proof. unfold str_leb. apply _. Defined.

Definition sorted (urls : gset pystr) : list pystr :=
  merge_sort str_leb (elements urls).

(** ** The outside world *)

(** What a run reads from outside: the text of [HTML_FILE] (or the exception
    [open]/[read] raises: file missing, unreadable, not UTF-8), the outcome
    of [requests.get(url, timeout=30)] followed by [raise_for_status()]
    (the response body, or the exception raised: connection error, timeout,
    error status), and the refusals of the operating system to create or
    write a file that the directory structure would allow (permissions,
    name too long, no space left). *)
Record environment := {
  read_html : result pystr;
  http_get : pystr -> result (list N);
  write_fault : pystr -> option exn
}.

Inductive node :=
| Dir
| BytesFile (data : list N)
| TextFile (text : pystr).

Inductive line :=
| Found (n : nat)
| Downloaded (local_path : pystr) (bytes : nat)
| FailedLine (url60 : pystr) (msg : pystr)
| Rule
| Summary (assets : nat) (total : nat)
| OutputDirectory (dir : pystr)
| SavedTo (file : pystr).

Inductive event :=
| Mkdir (dir : pystr)
| HttpGet (url : pystr)
| WriteBytes (file : pystr) (data : list N)
| WriteText (file : pystr) (text : pystr)
| Print (l : line).

(** The disk as a map from path names to nodes, and the effects so far,
    oldest first. *)
Record world := mkWorld {
  fs : gmap pystr node;
  trace : list event
}.

Definition emit (e : event) (w : world) : world :=
  mkWorld (fs w) (trace w ++ [e]).

(** Computations that change the world and may raise. *)
Definition M (A : Type) : Type := world -> world * result A.

Definition ret {A} (a : A) : M A := fun w => (w, Ok a).
Definition raise {A} (e : exn) : M A := fun w => (w, Raise e).
Definition bind {A B} (m : M A) (k : A -> M B) : M B :=
  fun w =>
    match m w with
    | (w', Ok a) => k a w'
    | (w', Raise e) => (w', Raise e)
    end.
Definition lift {A} (r : result A) : M A := fun w => (w, r).

(** [try: body except Exception as e: handler(e)] *)
Definition try_except {A} (body : M A) (handler : exn -> M A) : M A :=
  fun w =>
    match body w with
    | (w', Ok a) => (w', Ok a)
    | (w', Raise e) => handler e w'
    end.

Notation "'do' x <- m ; k" := (bind m (fun x => k))
  (at level 10, x pattern, m at level 100, k at level 200).
Notation "m ;; k" := (bind m (fun _ => k))
  (at level 100, k at level 200, right associativity).

Definition print (l : line) : M unit := fun w => (emit (Print l) w, Ok tt).

(** *** os.path and the calls on the disk *)

Module OsPath.

Definition rstrip (chars s : pystr) : pystr := rev (lstrip chars (rev s)).

Definition all_slashes (s : pystr) : bool := forallb (N.eqb (ch "/")) s.

(** [os.path.split(p)] *)
Definition split_path (p : pystr) : pystr * pystr :=
  let i := match rfind (ch "/") p with Some j => S j | None => O end in
  let head := take i p in
  let tail := drop i p in
  (if all_slashes head then head else rstrip (py "/") head, tail).

Definition dirname (p : pystr) : pystr := fst (split_path p).

(** [os.path.join(a, b)] *)
Definition join (a b : pystr) : pystr :=
  if startswith b (py "/") then b
  else if bool_decide (a = []) || (List.last a 0 =? ch "/") then a ++ b
  else a ++ py "/" ++ b.

Definition exists_ (p : pystr) (w : world) : bool :=
  bool_decide (is_Some (fs w !! p)).

Definition isdir (p : pystr) (w : world) : bool :=
  match fs w !! p with Some Dir => true | _ => false end.

(** [os.mkdir(name)]: the name must be free and its parent a directory
    (a name without a parent lies in the current directory). *)
Definition mkdir (name : pystr) : M unit := fun w =>
  match fs w !! name with
  | Some _ => (w, Raise (Exn "FileExistsError" name))
  | None =>
      let parent := dirname name in
      match (if bool_decide (parent = []) then Some Dir else fs w !! parent) with
      | Some Dir =>
          if bool_decide (name = []) then (w, Raise (Exn "FileNotFoundError" name))
          else (emit (Mkdir name) (mkWorld (<[name := Dir]> (fs w)) (trace w)), Ok tt)
      | Some _ => (w, Raise (Exn "NotADirectoryError" name))
      | None => (w, Raise (Exn "FileNotFoundError" name))
      end
  end.

(** [os.makedirs(name, exist_ok=True)]; the recursion is on the parent,
    which is shorter, so the length of the name is fuel enough. *)
Fixpoint makedirs_fuel (fuel : nat) (name : pystr) : M unit :=
  match fuel with
  | O => raise (Exn "RecursionError" name)
  | S fuel' =>
      let '(head, tail) := split_path name in
      let '(head, tail) :=
        if bool_decide (tail = []) then split_path head else (head, tail) in
      fun w =>
        let create :=
          try_except (mkdir name)
            (fun e w' => if isdir name w' then (w', Ok tt) else (w', Raise e)) in
        if bool_decide (head <> []) && bool_decide (tail <> [])
           && negb (exists_ head w)
        then
          match try_except (makedirs_fuel fuel' head)
                  (fun e => match e with
                            | Exn "FileExistsError" _ => ret tt
                            | _ => raise e
                            end) w with
          | (w', Ok _) =>
              if bool_decide (tail = py ".") then (w', Ok tt) else create w'
          | (w', Raise e) => (w', Raise e)
          end
        else create w
  end.

Definition makedirs (name : pystr) : M unit :=
  makedirs_fuel (S (length name)) name.

(** [open(file, mode)] for writing, then [write]: the name must not denote
    a directory, and its parent must be one. *)
Definition write_check (env : environment) (file : pystr) (w : world)
  : result unit :=
  let '(parent, name) := split_path file in
  match (if bool_decide (parent = []) then Some Dir else fs w !! parent) with
  | Some Dir =>
      if bool_decide (name = []) || bool_decide (name = py ".")
         || bool_decide (name = py "..") || isdir file w
      then Raise (Exn "IsADirectoryError" file)
      else match write_fault env file with
           | Some e => Raise e
           | None => Ok tt
           end
  | Some _ => Raise (Exn "NotADirectoryError" file)
  | None => Raise (Exn "FileNotFoundError" file)
  end.

Definition write_bytes (env : environment) (file : pystr) (data : list N)
  : M unit := fun w =>
  match write_check env file w with
  | Ok _ => (emit (WriteBytes file data)
               (mkWorld (<[file := BytesFile data]> (fs w)) (trace w)), Ok tt)
  | Raise e => (w, Raise e)
  end.

Definition write_text (env : environment) (file : pystr) (text : pystr)
  : M unit := fun w =>
  match write_check env file w with
  | Ok _ => (emit (WriteText file text)
               (mkWorld (<[file := TextFile text]> (fs w)) (trace w)), Ok tt)
  | Raise e => (w, Raise e)
  end.

End OsPath.

(** [requests.get(url, timeout=30)]; [raise_for_status()]; [.content] *)
Definition requests_get (env : environment) (url : pystr) : M (list N) :=
  fun w => (emit (HttpGet url) w, http_get env url).

(** A [dict] keeps its keys in insertion order; assigning to a key it has
    replaces the value in place. *)
Fixpoint dict_set (d : list (pystr * pystr)) (k v : pystr)
  : list (pystr * pystr) :=
  match d with
  | [] => [(k, v)]
  | (k', v') :: d' =>
      if bool_decide (k' = k) then (k, v) :: d' else (k', v') :: dict_set d' k v
  end.

(** [for x in xs: body] over a loop state. *)
Fixpoint for_each {A S} (xs : list A) (body : A -> S -> M S) (s : S) : M S :=
  match xs with
  | [] => ret s
  | x :: xs' => do s' <- body x s; for_each xs' body s'
  end.

(** *** url_to_local_path *)

Section Script.
Context `{UrlParse.LibraryTables}.

(** [parts[-1].split('?')[0]] *)
Definition filename_of (parts : list pystr) : pystr :=
  first_part (split (ch "?") (last_part parts)).

Definition url_to_local_path (url : pystr) : result pystr :=
  rbind (UrlParse.urlparse_path url) (fun parsed_path =>
    let path := lstrip (py "/") parsed_path in
    let fallback := Ok (py "assets/" ++ filename_of (split (ch "/") path)) in
    if contains (py "website-files.com") url then
      let parts := split (ch "/") path in
      if bool_decide (2 <= length parts)%nat then
        if contains (py "/css/") path then
          Ok (py "assets/css/" ++ filename_of parts)
        else if contains (py "/js/") path then
          Ok (py "assets/js/" ++ filename_of parts)
        else
          let filename := filename_of parts in
          Ok (py "assets/images/" ++ filename)
      else fallback
    else if contains (py "cloudfront.net") url then
      let filename := filename_of (split (ch "/") path) in
      Ok (py "assets/js/" ++ filename)
    else fallback).


(** *** download_asset *)

(** What [download_asset] returns: [(True, len(content))] or
    [(False, str(e))]. *)
Inductive outcome :=
| Success (bytes : nat)
| Failure (description : pystr).

Definition download_asset (env : environment)
    (url local_path output_dir : pystr) : M outcome :=
  let full_path := OsPath.join output_dir local_path in
  OsPath.makedirs (OsPath.dirname full_path);;
  try_except
    (do content <- requests_get env url;
     OsPath.write_bytes env full_path content;;
     ret (Success (length content)))
    (fun e => ret (Failure (str_of_exn e))).

(** *** main *)

(** The variables of [main] that the loop carries. *)
Record loop_state := mkLoop {
  url_mapping : list (pystr * pystr);
  total_size : nat
}.

Definition loop_body (env : environment) (url : pystr) (st : loop_state)
  : M loop_state :=
  do local_path <- lift (url_to_local_path url);
  do r <- download_asset env url local_path OUTPUT_DIR;
  match r with
  | Success result =>
      print (Downloaded local_path result);;
      ret (mkLoop (dict_set (url_mapping st) url local_path)
                  (total_size st + result))
  | Failure result =>
      print (FailedLine (take 60 url) result);;
      ret st
  end.

(** The rewrite: one [replace] per entry, in the order of the [dict]. *)
Definition rewrite (html : pystr) (mapping : list (pystr * pystr)) : pystr :=
  fold_left (fun new_html '(old_url, new_path) =>
               replace new_html old_url new_path) mapping html.

(** The variables of [main] at its end. *)
Record run := mkRun {
  html_read : pystr;
  final : loop_state;
  new_html : pystr
}.

Definition main (env : environment) : M run :=
  do html <- lift (read_html env);
  let urls := extract_cdn_urls html in
  print (Found (size urls));;
  OsPath.makedirs OUTPUT_DIR;;
  do st <- for_each (sorted urls) (loop_body env) (mkLoop [] 0);
  let new_html := rewrite html (url_mapping st) in
  let output_html := OsPath.join OUTPUT_DIR (py "index.html") in
  OsPath.write_text env output_html new_html;;
  print Rule;;
  print (Summary (length (url_mapping st)) (total_size st));;
  print (OutputDirectory OUTPUT_DIR);;
  print (SavedTo output_html);;
  ret (mkRun html st new_html).

End Script.

(** ** Vocabulary of the statements *)

(** Tables that are exact on ASCII URLs without bracketed hosts, the only
    ones the examples below use: NFKC leaves ASCII text as it is, and no
    bracketed host is accepted. *)
Definition ascii_tables : UrlParse.LibraryTables :=
  {| UrlParse.NFKC := fun s => s;
     UrlParse._check_bracketed_netloc :=
       fun _ => Raise (Exn "ValueError" (py "Invalid IPv6 URL")) |}.

(** Worlds and environments of the examples: an empty disk, a network on
    which every request succeeds with three bytes, and one on which the
    request for [bad] is refused. *)
Definition empty_world : world := mkWorld ∅ [].

Definition all_succeed (html : string) : environment :=
  {| read_html := Ok (py html);
     http_get := fun _ => Ok [1; 2; 3];
     write_fault := fun _ => None |}.

Definition fails_on (bad html : string) : environment :=
  {| read_html := Ok (py html);
     http_get := fun url =>
       if bool_decide (url = py bad)
       then Raise (Exn "ConnectionError" (py "connection refused"))
       else Ok [1; 2; 3];
     write_fault := fun _ => None |}.

(** [seg] is the last ['/']-delimited segment of [path]. *)
Definition last_segment (path seg : pystr) : Prop :=
  (ch "/" ∉ seg) /\ (path = seg \/ exists pre, path = pre ++ ch "/" :: seg).

(** [name] is [seg] with anything from the first ['?'] on discarded. *)
Definition query_stripped (seg name : pystr) : Prop :=
  (ch "?" ∉ name) /\ (seg = name \/ exists rest, seg = name ++ ch "?" :: rest).

(** [name] is the file name of [path]. *)
Definition is_filename (path name : pystr) : Prop :=
  exists seg, last_segment path seg /\ query_stripped seg name.

(** The directory the rules for the primary CDN choose for a path (leading
    slashes stripped). *)
Definition primary_directory (path : pystr) : pystr :=
  if bool_decide (ch "/" ∈ path) then
    if contains (py "/css/") path then py "assets/css/"
    else if contains (py "/js/") path then py "assets/js/"
    else py "assets/images/"
  else py "assets/".

(** The two host patterns. *)
Definition hosts : list pystr := [pattern; pattern2].

(** Text made of class characters only, and text at which a run of class
    characters stops: the end, or a character outside the class. *)
Definition class_text (s : pystr) : Prop :=
  Forall (fun c => is_terminator c = false) s.

Definition stops (post : pystr) : Prop :=
  match post with
  | [] => True
  | c :: _ => is_terminator c = true
  end.

(** [u] matches the pattern of [host] in [html] right after [pre]: the host,
    then one or more class characters up to where they stop. *)
Definition match_at (host pre u html : pystr) : Prop :=
  exists run post,
    u = host ++ run /\ html = pre ++ u ++ post /\
    run <> [] /\ class_text run /\ stops post.

(** The data of the asset files written, and the summary lines printed, among
    some effects. *)
Definition written (evs : list event) : list (list N) :=
  omap (fun e => match e with WriteBytes _ data => Some data | _ => None end) evs.

Definition summaries (evs : list event) : list (nat * nat) :=
  omap (fun e => match e with
                 | Print (Summary assets total) => Some (assets, total)
                 | _ => None
                 end) evs.

(** The download of [url] to [local_path] succeeded with [bytes] bytes when
    its turn came in the loop over [urls] started in the world [w]: the
    turns before it passed without an exception. *)
Inductive downloaded_in `{UrlParse.LibraryTables} (env : environment)
  : world -> list pystr -> pystr -> pystr -> nat -> Prop :=
| downloaded_here w url urls local_path bytes w' :
    url_to_local_path url = Ok local_path ->
    download_asset env url local_path OUTPUT_DIR w = (w', Ok (Success bytes)) ->
    downloaded_in env w (url :: urls) url local_path bytes
| downloaded_later w u urls url local_path bytes st st' w' :
    loop_body env u st w = (w', Ok st') ->
    downloaded_in env w' urls url local_path bytes ->
    downloaded_in env w (u :: urls) url local_path bytes.

(** A computation that writes no asset file and prints no summary line. *)
Definition quiet {A} (m : M A) : Prop :=
  forall w w' r, m w = (w', r) ->
    exists evs, trace w' = trace w ++ evs /\ written evs = [] /\ summaries evs = [].

(** The result is not an exception. *)
Definition is_ok {A} (r : result A) : bool :=
  match r with Ok _ => true | Raise _ => false end.

(** [u] occurs in [s]. *)
Definition occurs (u s : pystr) : Prop := exists a c, s = a ++ u ++ c.

(** No URL of the set occurs inside another one. *)
Definition independent (urls : gset pystr) : Prop :=
  forall u v, u ∈ urls -> v ∈ urls -> occurs u v -> u = v.

(** The directories the mapper writes to. *)
Definition directories : list pystr :=
  [py "assets/css/"; py "assets/js/"; py "assets/images/"; py "assets/"].

(** Text that begins the document or follows a character outside the
    class. *)
Definition bounded (before : pystr) : Prop :=
  before = [] \/ exists b t, before = b ++ [t] /\ is_terminator t = true.

(** The URLs requested, the per-asset report lines and the counts announced
    among some effects. *)
Definition requests (evs : list event) : list pystr :=
  omap (fun e => match e with HttpGet url => Some url | _ => None end) evs.

Definition reports (evs : list event) : list line :=
  omap (fun e => match e with
                 | Print (Downloaded p n) => Some (Downloaded p n)
                 | Print (FailedLine u m) => Some (FailedLine u m)
                 | _ => None
                 end) evs.

Definition announced (evs : list event) : list nat :=
  omap (fun e => match e with Print (Found n) => Some n | _ => None end) evs.

(** A computation that keeps every node the disk has: it may add nodes. *)
Definition keeps_nodes {A} (m : M A) : Prop :=
  forall w w' r, m w = (w', r) ->
    forall k node, fs w !! k = Some node -> fs w' !! k = Some node.

(** The file of the rewritten document. *)
Definition OUTPUT_HTML : pystr := OsPath.join OUTPUT_DIR (py "index.html").

(** A computation whose only effects are directory creations. *)
Definition only_mkdirs {A} (m : M A) : Prop :=
  forall w w' r, m w = (w', r) ->
    exists evs, trace w' = trace w ++ evs /\
                Forall (fun e => exists d, e = Mkdir d) evs.

(** The length of the body the network gives for [url], 0 when the request
    raises. *)
Definition body_length (env : environment) (url : pystr) : nat :=
  match http_get env url with Ok content => length content | Raise _ => 0%nat end.

(** ** String lemmas *)

Section StringFacts.
Implicit Types s p a b old new : pystr.
Implicit Types c : char.

Lemma app_eq_app_le (a b a' b' : pystr) :
  a ++ b = a' ++ b' -> (length a' <= length a)%nat ->
  exists l, a = a' ++ l /\ b' = l ++ b.
Proof.
  intros Heq Hlen. apply app_eq_app in Heq as [l [[-> ->]|[-> ->]]]; [by eauto|].
  rewrite length_app in Hlen. destruct l; [|simpl in Hlen; lia].
  exists []. by rewrite !app_nil_r.
Qed.

Lemma app_eq_app_ge (a b a' b' : pystr) :
  a ++ b = a' ++ b' -> (length b' <= length b)%nat ->
  exists l, b = l ++ b' /\ a' = a ++ l.
Proof.
  intros Heq Hlen. apply app_eq_app in Heq as [l [[-> ->]|[-> ->]]]; [|by eauto].
  rewrite length_app in Hlen. destruct l; [|simpl in Hlen; lia].
  exists []. by rewrite !app_nil_r.
Qed.

Lemma startswith_spec s p : startswith s p = true <-> exists r, s = p ++ r.
Proof.
  revert s; induction p as [|a p IH]; intros [|b s]; simpl.
  - split; eauto.
  - split; eauto.
  - split; [discriminate | intros [r Hr]; discriminate].
  - split.
    + intros [Hab Hs]%andb_true_iff. apply N.eqb_eq in Hab as ->.
      apply IH in Hs as [r ->]. eauto.
    + intros [r Hr]. injection Hr as -> ->. apply andb_true_iff.
      split; [apply N.eqb_refl | apply IH; eauto].
Qed.

Lemma startswith_app p r : startswith (p ++ r) p = true.
Proof. apply startswith_spec. eauto. Qed.

Lemma contains_spec needle hay :
  contains needle hay = true <-> exists a b, hay = a ++ needle ++ b.
Proof.
  induction hay as [|c hay IH]; cbn [contains].
  - rewrite orb_false_r. split.
    + intros [r Hr]%startswith_spec. exists [], r. done.
    + intros (a & b & Hab). apply startswith_spec.
      destruct a; [eauto|discriminate].
  - split.
    + intros [[r Hr]%startswith_spec | (a & b & ->)%IH]%orb_true_iff.
      * exists [], r. done.
      * exists (c :: a), b. done.
    + intros (a & b & Hab). apply orb_true_iff. destruct a as [|c' a].
      * left. apply startswith_spec. eauto.
      * right. injection Hab as -> ->. apply IH. eauto.
Qed.


Lemma contains_single c s : contains [c] s = true <-> c ∈ s.
Proof.
  rewrite contains_spec. split.
  - intros (a & b & ->). set_solver.
  - intros (a & b & ->)%list_elem_of_split. by exists a, b.
Qed.

Lemma lstrip_keep chars c s :
  char_in c chars = false -> lstrip chars (c :: s) = c :: s.
Proof. intros Hc. simpl. by rewrite Hc. Qed.

(** *** replace *)

Lemma replace_absent s old new :
  old <> [] -> contains old s = false -> replace s old new = s.
Proof.
  intros Hold. destruct old as [|o old]; [done|]. unfold replace. clear Hold.
  induction s as [|c s IH]; [done|]. cbn [contains replace_from].
  intros [Hsw Hrest]%orb_false_iff. rewrite Hsw. f_equal. by apply IH.
Qed.

Lemma replace_from_drop skip s old new :
  replace_from skip s old new = replace_from 0 (drop skip s) old new.
Proof.
  revert skip. induction s as [|c s IH]; intros [|k]; try done.
  simpl. apply IH.
Qed.

Lemma replace_match s r old new :
  old <> [] -> replace (old ++ r) old new = new ++ replace r old new.
Proof.
  intros Hold. destruct old as [|o old]; [done|]. unfold replace.
  cbn [app replace_from].
  change (startswith (o :: old ++ r) (o :: old))
    with (startswith ((o :: old) ++ r) (o :: old)).
  rewrite startswith_app, replace_from_drop.
  replace (length (o :: old) - 1)%nat with (length old) by (simpl; lia).
  by rewrite drop_app_length.
Qed.

Lemma replace_no_match c s old new :
  old <> [] -> startswith (c :: s) old = false ->
  replace (c :: s) old new = c :: replace s old new.
Proof.
  intros Hold Hsw. destruct old as [|o old]; [done|]. unfold replace.
  cbn [replace_from]. by rewrite Hsw.
Qed.

Lemma replace_nil old new : old <> [] -> replace [] old new = [].
Proof. by destruct old. Qed.

Lemma occurs_contains u s : occurs u s <-> contains u s = true.
Proof. unfold occurs. by rewrite contains_spec. Qed.

Lemma not_occurs_contains u s : ~ occurs u s <-> contains u s = false.
Proof. rewrite occurs_contains. by destruct (contains u s). Qed.

Global Instance occurs_dec u s : Decision (occurs u s).
Proof.
  destruct (contains u s) eqn:Hc.
  - left. by apply occurs_contains.
  - right. by apply not_occurs_contains.
Defined.

Lemma occurs_app_l u s1 s2 : occurs u s1 -> occurs u (s1 ++ s2).
Proof. intros (a & c & ->). exists a, (c ++ s2). by rewrite <- !app_assoc. Qed.

Lemma occurs_app_r u s1 s2 : occurs u s2 -> occurs u (s1 ++ s2).
Proof. intros (a & c & ->). exists (s1 ++ a), c. by rewrite <- !app_assoc. Qed.



(** An occurrence in a text around a character it does not contain lies on
    one side of that character. *)
Lemma occurs_split_at a u (c : pystr) b t (d : pystr) :
  a ++ u ++ c = b ++ t :: d -> t ∉ u ->
  (exists z, b = a ++ u ++ z /\ c = z ++ t :: d) \/
  (exists a', a = b ++ t :: a' /\ d = a' ++ u ++ c).
Proof.
  intros Heq Ht.
  destruct (decide (length b < length a)%nat) as [Hlt|Hge].
  - right. apply app_eq_app_le in Heq as (l & Hl & Hd); [|lia].
    destruct l as [|t' l]; [rewrite app_nil_r in Hl; subst; lia|].
    injection Hd as -> ->. by exists l.
  - left. symmetry in Heq.
    apply app_eq_app_le in Heq as (l & -> & Hl); [|lia].
    apply app_eq_app in Hl as [k [[Hk1 Hk2]|[Hk1 Hk2]]].
    + destruct k as [|t' k].
      * rewrite app_nil_r in Hk1. subst u. simpl in Hk2. subst c.
        exists []. by rewrite !app_nil_r.
      * injection Hk2 as <- ->. exfalso. apply Ht. rewrite Hk1. set_solver.
    + exists k. by subst.
Qed.

Lemma occurs_sep u a t b :
  t ∉ u -> occurs u (a ++ t :: b) -> occurs u a \/ occurs u b.
Proof.
  intros Ht (x & c & Heq). symmetry in Heq.
  destruct (occurs_split_at _ _ _ _ _ _ Heq Ht) as [(z & -> & _)|(a' & _ & ->)].
  - left. by exists x, z.
  - right. by exists a', c.
Qed.

(** The replacement works on each side of a character that the replaced
    text does not contain. *)
Lemma replace_sep a t b old new :
  old <> [] -> t ∉ old ->
  replace (a ++ t :: b) old new = replace a old new ++ t :: replace b old new.
Proof.
  intros Hold Ht. remember (length a) as n eqn:Hn. revert a Hn.
  induction n as [n IH] using lt_wf_ind. intros [|c a] Hn.
  - rewrite replace_nil by done. simpl. apply replace_no_match; [done|].
    destruct (startswith (t :: b) old) eqn:Hsw; [|done].
    apply startswith_spec in Hsw as [r Hr]. destruct old as [|o old]; [done|].
    injection Hr as -> _. exfalso. apply Ht. by left.
  - destruct (startswith ((c :: a) ++ t :: b) old) eqn:Hsw.
    + apply startswith_spec in Hsw as [r Hr].
      assert (exists a', c :: a = old ++ a') as [a' Ha'].
      { apply app_eq_app in Hr as [k [[Hk1 Hk2]|[Hk1 Hk2]]]; [by eauto|].
        destruct k as [|t' k]; [exists []; by rewrite Hk1, !app_nil_r|].
        injection Hk2 as <- _. exfalso. apply Ht. rewrite Hk1. set_solver. }
      rewrite Ha', <- app_assoc, !replace_match, <- app_assoc by done.
      f_equal. apply (IH (length a')); [|done].
      subst n. rewrite Ha', length_app. destruct old; [done|]. simpl. lia.
    + change ((c :: a) ++ t :: b) with (c :: (a ++ t :: b)) in *.
      rewrite replace_no_match by done.
      assert (Hsw' : startswith (c :: a) old = false).
      { destruct (startswith (c :: a) old) eqn:Hsw'; [|done].
        apply startswith_spec in Hsw' as [r Hr].
        assert (startswith (c :: (a ++ t :: b)) old = true); [|congruence].
        apply startswith_spec. exists (r ++ t :: b).
        rewrite app_assoc, <- Hr. done. }
      rewrite (replace_no_match c a) by done.
      change ((c :: replace a old new) ++ t :: replace b old new)
        with (c :: (replace a old new ++ t :: replace b old new)).
      f_equal.
      apply (IH (length a)); [subst n; simpl; lia | done].
Qed.

(** Replacing a text that occurs only at the end. *)
Lemma replace_at_end (x : pystr) old new :
  old <> [] ->
  (forall a (c : pystr), x ++ old = a ++ old ++ c -> a = x) ->
  replace (x ++ old) old new = x ++ new.
Proof.
  intros Hold. induction x as [|c x IH]; intros Honly.
  - simpl. rewrite <- (app_nil_r old) at 1.
    by rewrite replace_match, replace_nil, app_nil_r.
  - simpl. rewrite replace_no_match; [f_equal; apply IH|done|].
    + intros a c' Heq. specialize (Honly (c :: a) c').
      simpl in Honly. rewrite Heq in Honly. by injection (Honly eq_refl).
    + destruct (startswith (c :: x ++ old) old) eqn:Hsw; [|done].
      apply startswith_spec in Hsw as [r Hr].
      by specialize (Honly [] r Hr).
Qed.

(** A two-character window in a text followed by one that has not its
    second character. *)
Lemma occurs_window c1 c2 (d n : pystr) :
  c2 ∉ n -> occurs [c1; c2] (d ++ n) -> occurs [c1; c2] d.
Proof.
  intros Hn (l & r & Heq).
  change (l ++ [c1; c2] ++ r) with (l ++ [c1] ++ c2 :: r) in Heq.
  rewrite app_assoc in Heq.
  apply app_eq_app in Heq as [k [[Hk1 Hk2]|[Hk1 Hk2]]].
  - destruct k as [|c k].
    + exfalso. apply Hn. simpl in Hk2. rewrite <- Hk2. by left.
    + injection Hk2 as -> ->. exists l, k. rewrite Hk1.
      by rewrite <- app_assoc.
  - exfalso. apply Hn. rewrite Hk2. set_solver.
Qed.

(** *** split *)

Lemma split_nonempty c s : split c s <> [].
Proof.
  destruct s as [|a s]; simpl; [done|].
  destruct (a =? c); [done|]. by destruct (split c s).
Qed.


Lemma split_absent c s : c ∉ s -> split c s = [s].
Proof.
  induction s as [|a s IH]; intros Hnot; simpl; [done|].
  apply not_elem_of_cons in Hnot as [Hne Hnot].
  destruct (N.eqb_spec a c) as [->|_]; [done|]. by rewrite IH.
Qed.

Lemma split_present c s :
  c ∈ s -> exists p q ps, split c s = p :: q :: ps.
Proof.
  induction s as [|a s IH]; intros Hin; [by apply elem_of_nil in Hin|].
  simpl. destruct (N.eqb_spec a c) as [->|Hne].
  - pose proof (split_nonempty c s) as Hnil.
    destruct (split c s) as [|q ps]; [done|]. eauto.
  - apply elem_of_cons in Hin as [->|Hin]; [done|].
    destruct (IH Hin) as (p & q & ps & ->). eauto.
Qed.

Lemma split_last_after c pre post :
  c ∉ post -> last_part (split c (pre ++ c :: post)) = post.
Proof.
  intros Hnot. induction pre as [|a pre IH]; simpl.
  - rewrite N.eqb_refl, split_absent by done. done.
  - assert (Hin : c ∈ pre ++ c :: post) by set_solver.
    destruct (split_present _ _ Hin) as (p & q & ps & Hsp).
    rewrite Hsp in IH |- *. by destruct (a =? c).
Qed.

Lemma split_last_segment c s :
  (c ∉ last_part (split c s)) /\
  (s = last_part (split c s) \/
   exists pre, s = pre ++ c :: last_part (split c s)).
Proof.
  destruct (decide (c ∈ s)) as [Hin|Hnot].
  - apply list_elem_of_split_r in Hin as (pre & post & -> & Hpost).
    rewrite split_last_after by done. eauto.
  - rewrite split_absent by done. split; [done | by left].
Qed.

Lemma split_first_segment c s :
  (c ∉ first_part (split c s)) /\
  (s = first_part (split c s) \/
   exists rest, s = first_part (split c s) ++ c :: rest).
Proof.
  induction s as [|a s [IHnot IHsh]]; simpl.
  - split; [apply not_elem_of_nil | by left].
  - destruct (N.eqb_spec a c) as [->|Hne]; simpl.
    + split; [apply not_elem_of_nil | right; by exists s].
    + pose proof (split_nonempty c s) as Hnil.
      destruct (split c s) as [|p ps]; [done|]. simpl in *. split.
      * by apply not_elem_of_cons.
      * destruct IHsh as [-> | [rest ->]]; [by left | right; by exists rest].
Qed.

Lemma split_length_ge_2 c s : (2 <= length (split c s))%nat <-> c ∈ s.
Proof.
  split.
  - intros Hlen. destruct (decide (c ∈ s)) as [|Hnot]; [done|].
    rewrite split_absent in Hlen by done. simpl in Hlen. lia.
  - intros (p & q & ps & ->)%split_present. simpl. lia.
Qed.

End StringFacts.

(** ** extract_cdn_urls *)

Section Findall.
Implicit Types s u pre post run host : pystr.

Lemma class_run_spec s :
  exists post, s = class_run s ++ post /\ class_text (class_run s) /\ stops post.
Proof.
  induction s as [|c s (post & Heq & Hrun & Hstop)]; simpl.
  - exists []. repeat split. constructor.
  - destruct (is_terminator c) eqn:Hc.
    + exists (c :: s). repeat split; [constructor | done].
    + exists post. simpl. split; [by f_equal|]. split; [by constructor | done].
Qed.

Lemma class_run_max run post :
  class_text run -> stops post -> class_run (run ++ post) = run.
Proof.
  intros Hrun Hstop. induction Hrun as [|c run Hc _ IH]; simpl.
  - destruct post as [|c post]; [done|]. simpl in *. by rewrite Hstop.
  - by rewrite Hc, IH.
Qed.

Lemma class_text_unique run1 post1 run2 post2 :
  run1 ++ post1 = run2 ++ post2 ->
  class_text run1 -> stops post1 -> class_text run2 -> stops post2 ->
  run1 = run2 /\ post1 = post2.
Proof.
  intros Heq H1 S1 H2 S2.
  assert (run1 = run2) as ->.
  { rewrite <- (class_run_max run1 post1), <- (class_run_max run2 post2) by done.
    by rewrite Heq. }
  split; [done|]. by apply app_inv_head in Heq.
Qed.

Lemma class_text_app s1 s2 :
  class_text (s1 ++ s2) <-> class_text s1 /\ class_text s2.
Proof. apply Forall_app. Qed.

Lemma match_here_spec host s m :
  match_here host s = Some m <-> match_at host [] m s.
Proof.
  unfold match_here, match_at. split.
  - destruct (startswith s host) eqn:Hsw; [|done].
    apply startswith_spec in Hsw as [r ->].
    rewrite drop_app_length.
    destruct (class_run_spec r) as (post & Heq & Hrun & Hstop).
    destruct (class_run r) as [|c run] eqn:Hcr; [done|].
    intros [= <-]. exists (c :: run), post. simpl.
    rewrite <- app_assoc. rewrite Heq at 1. done.
  - intros (run & post & -> & -> & Hne & Hrun & Hstop). simpl.
    rewrite <- app_assoc, startswith_app, drop_app_length.
    rewrite class_run_max by done. by destruct run.
Qed.

Lemma findall_from_drop skip host s :
  findall_from skip host s = findall host (drop skip s).
Proof.
  revert skip. induction s as [|c s IH]; intros [|k]; try done.
  simpl. apply IH.
Qed.

Lemma findall_cons host c s :
  findall host (c :: s) =
    match match_here host (c :: s) with
    | Some m => m :: findall host (drop (length m) (c :: s))
    | None => findall host s
    end.
Proof.
  unfold findall at 1. simpl.
  destruct (match_here host (c :: s)) as [m|] eqn:Hm; [|done].
  rewrite findall_from_drop. f_equal.
  apply match_here_spec in Hm as (run & post & -> & _ & Hne & _).
  destruct host, run; try done; simpl; by rewrite Nat.sub_0_r.
Qed.

Lemma match_at_shift host pre pre' u s :
  match_at host pre u s -> match_at host (pre' ++ pre) u (pre' ++ s).
Proof.
  intros (run & post & -> & -> & ?). exists run, post.
  by rewrite <- !app_assoc.
Qed.

(** Every match returned is a match of the pattern in the text. *)
Lemma findall_sound host s u :
  u ∈ findall host s -> exists pre, match_at host pre u s.
Proof.
  remember (length s) as n eqn:Hn. revert s Hn u.
  induction n as [n IH] using lt_wf_ind. intros [|c s] Hn u.
  - by intros ?%elem_of_nil.
  - rewrite findall_cons.
    destruct (match_here host (c :: s)) as [m|] eqn:Hm.
    + intros [->|Hin]%elem_of_cons.
      * exists []. by apply match_here_spec.
      * apply match_here_spec in Hm as Hm'.
        destruct Hm' as (run & post & -> & Heq & Hne & _).
        simpl in Heq. rewrite Heq in Hin |- *.
        rewrite drop_app_length in Hin.
        apply IH with (m := length post) in Hin as [pre Hpre]; [|..|done].
        -- exists ((host ++ run) ++ pre). by apply match_at_shift.
        -- subst n. rewrite Heq, !length_app. destruct run; [done|].
           simpl. lia.
    + intros Hin. apply IH with (m := length s) in Hin as [pre Hpre];
        [|subst n; simpl; lia|done].
      exists (c :: pre). by apply (match_at_shift _ _ [c]).
Qed.

Section OneHost.
Variable host : pystr.
Hypothesis host_class : class_text host.

(** Every match of the pattern in the text is returned, or is the tail of
    a returned match that starts earlier. *)
Lemma findall_cover s pre u :
  match_at host pre u s ->
  exists pre1 x,
    pre = pre1 ++ x /\ x ++ u ∈ findall host s /\
    match_at host pre1 (x ++ u) s.
Proof.
  remember (length s) as n eqn:Hn. revert s Hn pre u.
  induction n as [n IH] using lt_wf_ind. intros [|c s] Hn pre u Hmatch.
  { destruct Hmatch as (run & post & -> & Heq & Hne & _).
    destruct pre, host, run; done. }
  rewrite findall_cons.
  destruct (match_here host (c :: s)) as [m|] eqn:Hm.
  - apply match_here_spec in Hm as Hm'.
    destruct Hm' as (run0 & post0 & -> & Heq0 & Hne0 & Hrun0 & Hstop0).
    destruct Hmatch as (run & post & -> & Heq & Hne & Hrun & Hstop).
    simpl in Heq0. rewrite Heq0 in *. clear Heq0.
    destruct (decide (length pre < length (host ++ run0))%nat) as [Hlt|Hge].
    + (* the match starts inside the first one and ends with it *)
      assert (exists y, host ++ run0 = pre ++ y) as [y Hy].
      { apply app_eq_app_le in Heq as (y & ? & _); [by eauto | lia]. }
      rewrite Hy, <- app_assoc in Heq. apply app_inv_head in Heq.
      assert (Hyc : class_text y).
      { eapply class_text_app. rewrite <- Hy. apply class_text_app. done. }
      rewrite <- app_assoc in Heq.
      assert (Huc : class_text (host ++ run)) by (by apply class_text_app).
      rewrite app_assoc in Heq.
      destruct (class_text_unique _ _ _ _ Heq) as [-> ->]; try done.
      exists [], pre. split; [done|]. rewrite <- Hy. split; [left|].
      apply match_here_spec. by rewrite match_here_spec; exists run0, post.
    + (* the match lies after the first one *)
      assert (exists pre', pre = (host ++ run0) ++ pre') as [pre' ->].
      { symmetry in Heq.
        apply app_eq_app_le in Heq as (y & ? & _); [by eauto | lia]. }
      rewrite <- !app_assoc in Heq. do 2 apply app_inv_head in Heq.
      rewrite drop_app_length. subst post0.
      destruct (IH (length (pre' ++ host ++ run ++ post))) with
        (s := pre' ++ host ++ run ++ post) (pre := pre') (u := host ++ run)
        as (pre1 & x & -> & Hin & Hm1); [|done|..].
      * subst n. rewrite !length_app. destruct host, run0; simpl in *; try done; lia.
      * exists run, post. by rewrite <- !app_assoc.
      * exists ((host ++ run0) ++ pre1), x. split; [by rewrite <- !app_assoc|].
        split; [by right|]. by apply match_at_shift.
  - destruct pre as [|c' pre].
    { apply match_here_spec in Hmatch. congruence. }
    assert (c' = c) as ->.
    { destruct Hmatch as (? & ? & _ & Heq & _). by injection Heq. }
    destruct (IH (length s)) with (s := s) (pre := pre) (u := u)
      as (pre1 & x & -> & Hin & Hm1); [subst n; simpl; lia|done|..].
    { destruct Hmatch as (run & post & -> & Heq & ?). exists run, post.
      injection Heq as ->. done. }
    exists (c :: pre1), x. split; [done|]. split; [done|].
    by apply (match_at_shift _ _ [c]).
Qed.

End OneHost.

Lemma class_text_hosts host : host ∈ hosts -> class_text host.
Proof.
  unfold hosts. rewrite !elem_of_cons, elem_of_nil.
  intros [->|[->|[]]]; vm_compute; repeat constructor.
Qed.

Lemma elem_of_extract_cdn_urls html u :
  u ∈ extract_cdn_urls html <-> exists host, host ∈ hosts /\ u ∈ findall host html.
Proof.
  unfold extract_cdn_urls, hosts.
  rewrite elem_of_union, !elem_of_list_to_set. split.
  - intros [Hin|Hin]; [exists pattern | exists pattern2]; split; try done;
      rewrite !elem_of_cons; auto.
  - intros (host & Hhost & Hin). rewrite !elem_of_cons, elem_of_nil in Hhost.
    destruct Hhost as [->|[->|[]]]; auto.
Qed.

Lemma sorted_perm (urls : gset pystr) : sorted urls ≡ₚ elements urls.
Proof. apply merge_sort_Permutation. Qed.

Lemma elem_of_sorted (urls : gset pystr) u : u ∈ sorted urls <-> u ∈ urls.
Proof. by rewrite sorted_perm, elem_of_elements. Qed.

Lemma NoDup_sorted (urls : gset pystr) : NoDup (sorted urls).
Proof. rewrite sorted_perm. apply NoDup_elements. Qed.

(** C3, as amended.  The extractor returns a set whose elements are all
    matches of one of the two patterns in the text: the host pattern, then
    one or more characters other than the double quote, white space, [)]
    and [>], up to the first such character or the end of the text.  Every
    such match in the text is returned, or is the tail of a returned match
    of the same pattern that starts earlier: the scan for a pattern goes
    from left to right and resumes where a match ended.  Without a match
    the set is empty, and sorting it lists each element once. *)
Lemma extract_cdn_urls_sound html u :
  u ∈ extract_cdn_urls html ->
  exists host pre, host ∈ hosts /\ match_at host pre u html.
Proof.
  intros (host & Hhost & Hin)%elem_of_extract_cdn_urls.
  apply findall_sound in Hin as [pre Hpre]. eauto.
Qed.



End Findall.

(** ** url_to_local_path *)

Section PathMapper.
Context `{UrlParse.LibraryTables}.

Lemma filename_of_spec path :
  is_filename path (filename_of (split (ch "/") path)).
Proof.
  exists (last_part (split (ch "/") path)). split.
  - apply split_last_segment.
  - apply split_first_segment.
Qed.

Lemma url_to_local_path_unfold url parsed :
  UrlParse.urlparse_path url = Ok parsed ->
  let path := lstrip (py "/") parsed in
  let name := filename_of (split (ch "/") path) in
  url_to_local_path url =
    Ok ((if contains (py "website-files.com") url then primary_directory path
         else if contains (py "cloudfront.net") url then py "assets/js/"
         else py "assets/") ++ name).
Proof.
  intros Hparsed path name. unfold url_to_local_path.
  rewrite Hparsed. cbn [rbind]. fold path. unfold primary_directory.
  destruct (contains (py "website-files.com") url); [|by destruct (contains _ url)].
  destruct (decide (ch "/" ∈ path)) as [Hin|Hnot].
  - rewrite (bool_decide_eq_true_2 (ch "/" ∈ path)) by done.
    rewrite bool_decide_eq_true_2 by (by apply split_length_ge_2).
    by repeat destruct (contains _ path).
  - rewrite (bool_decide_eq_false_2 (ch "/" ∈ path)) by done.
    rewrite bool_decide_eq_false_2; [done|].
    by rewrite split_length_ge_2.
Qed.

Lemma is_ok_spec {A} (r : result A) : is_ok r = true <-> exists a, r = Ok a.
Proof. destruct r; simpl; split; eauto; [done | by intros [? ?]]. Qed.

(** A URL the extractor returns is parsed without an error: its scheme and
    host are those of the pattern, and it has no white space. *)
Lemma urlparse_path_match host run :
  host ∈ hosts -> class_text run ->
  exists parsed, UrlParse.urlparse_path (host ++ run) = Ok parsed.
Proof.
  intros Hhost Hrun. apply is_ok_spec.
  assert (Hclean : forall c, is_space c = true -> c ∈ host ++ run -> False).
  { intros c Hc [Hin|Hin]%elem_of_app.
    - apply class_text_hosts in Hhost.
      unfold class_text in Hhost. rewrite Forall_forall in Hhost.
      specialize (Hhost c Hin). unfold is_terminator in Hhost.
      rewrite Hc in Hhost. by destruct (c =? 34).
    - unfold class_text in Hrun. rewrite Forall_forall in Hrun.
      specialize (Hrun c Hin). unfold is_terminator in Hrun.
      rewrite Hc in Hrun. by destruct (c =? 34). }
  assert (Hrep : forall c, is_space c = true ->
            replace (host ++ run) [c] [] = host ++ run).
  { intros c Hc. apply replace_absent; [done|].
    destruct (contains [c] (host ++ run)) eqn:Hin; [|done].
    apply contains_single in Hin. by destruct (Hclean c Hc). }
  unfold UrlParse.urlparse_path, UrlParse.urlsplit.
  replace (fold_left (fun u b => replace u b [])
             UrlParse.UNSAFE_URL_BYTES_TO_REMOVE
             (lstrip UrlParse.C0_CONTROL_OR_SPACE (host ++ run)))
    with (host ++ run).
  2:{ unfold hosts in Hhost. rewrite !elem_of_cons, elem_of_nil in Hhost.
      assert (lstrip UrlParse.C0_CONTROL_OR_SPACE (host ++ run) = host ++ run)
        as ->.
      { destruct Hhost as [->|[->|[]]]; by apply lstrip_keep. }
      unfold UrlParse.UNSAFE_URL_BYTES_TO_REMOVE. cbn [fold_left].
      by rewrite !Hrep. }
  clear Hclean Hrep Hrun.
  unfold hosts in Hhost. rewrite !elem_of_cons, elem_of_nil in Hhost.
  destruct Hhost as [->|[->|[]]]; vm_compute;
    match goal with |- context [if ?b then _ else _] => by destruct b end.
Qed.

(** C2. The four examples of the path mapper. *)
Theorem url_to_local_path_examples :
  url_to_local_path (py "https://cdn.prod.website-files.com/abc123/css/main.css?v=2")
    = Ok (py "assets/css/main.css") /\
  url_to_local_path (py "https://cdn.prod.website-files.com/abc123/img/logo.png")
    = Ok (py "assets/images/logo.png") /\
  url_to_local_path (py "https://d3e54v103j8qbb.cloudfront.net/jquery-3.5.1.min.js")
    = Ok (py "assets/js/jquery-3.5.1.min.js") /\
  url_to_local_path (py "https://example.com/foo/bar.pdf")
    = Ok (py "assets/bar.pdf").
Proof. repeat split; vm_compute; reflexivity. Qed.



(** C6, as amended.  The mapper is a function of the URL alone.  It fails
    exactly when [urlparse] raises, with the same [ValueError]; on every URL
    that [urlparse] accepts, and so on every URL the extractor returns, it
    produces a path, and that path begins with [assets/] and is not
    empty. *)
Theorem url_to_local_path_total_on_parsed url :
  (forall r1 r2,
     url_to_local_path url = r1 -> url_to_local_path url = r2 -> r1 = r2) /\
  (forall e, UrlParse.urlparse_path url = Raise e <->
             url_to_local_path url = Raise e) /\
  (forall parsed, UrlParse.urlparse_path url = Ok parsed ->
     exists rest,
       url_to_local_path url = Ok (py "assets/" ++ rest) /\
       py "assets/" ++ rest <> []) /\
  (forall html, url ∈ extract_cdn_urls html ->
     exists p, url_to_local_path url = Ok p).
Proof.
  assert (Hok : forall parsed, UrlParse.urlparse_path url = Ok parsed ->
            exists rest, url_to_local_path url = Ok (py "assets/" ++ rest)).
  { intros parsed Hparsed. rewrite (url_to_local_path_unfold _ _ Hparsed).
    unfold primary_directory.
    repeat match goal with |- context [if ?b then _ else _] => destruct b end;
      rewrite <- ?app_assoc; eexists; reflexivity || (f_equal; reflexivity). }
  split; [by intros r1 r2 <- <-|]. split; [|split].
  - intros e. destruct (UrlParse.urlparse_path url) as [parsed|e'] eqn:Hp.
    + destruct (Hok parsed eq_refl) as [rest ->]. done.
    + unfold url_to_local_path. by rewrite Hp.
  - intros parsed [rest Hrest]%Hok. by exists rest.
  - intros html (host & pre & Hhost & Hmatch)%extract_cdn_urls_sound.
    destruct Hmatch as (run & post & -> & _ & _ & Hrun & _).
    destruct (urlparse_path_match host run Hhost Hrun) as [parsed Hparsed].
    destruct (Hok parsed Hparsed) as [rest Hrest]. eauto.
Qed.

End PathMapper.



(** The claim C6 as it is stated fails: [urlparse] raises [ValueError] on
    a URL whose host opens a bracket and does not close it, and the mapper
    with it. *)
Lemma url_to_local_path_not_total :
  ~ (forall (T : UrlParse.LibraryTables) url,
       exists p, url_to_local_path url = Ok p /\ p <> []).
Proof.
  intros Hclaim.
  destruct (Hclaim ascii_tables (py "https://[")) as (p & Hp & _).
  vm_compute in Hp. discriminate.
Qed.

(** ** The effects of a run *)

Section Effects.
Context `{UrlParse.LibraryTables}.
Implicit Types w : world.
Implicit Types evs : list event.

Lemma quiet_ret {A} (a : A) : quiet (ret a).
Proof. intros w w' r [= <- <-]. exists []. by rewrite app_nil_r. Qed.

Lemma quiet_raise {A} e : quiet (raise (A := A) e).
Proof. intros w w' r [= <- <-]. exists []. by rewrite app_nil_r. Qed.


Lemma quiet_try_except {A} (body : M A) handler :
  quiet body -> (forall e, quiet (handler e)) -> quiet (try_except body handler).
Proof.
  intros Hm Hk w w' r. unfold try_except.
  destruct (body w) as [w1 [a|e]] eqn:Hmw; intros Hrun.
  - injection Hrun as <- <-. apply (Hm _ _ _ Hmw).
  - destruct (Hm _ _ _ Hmw) as (evs1 & Ht1 & Hw1 & Hs1).
    destruct (Hk _ _ _ _ Hrun) as (evs2 & Ht2 & Hw2 & Hs2).
    exists (evs1 ++ evs2). rewrite Ht2, Ht1, app_assoc.
    unfold written, summaries in *.
    by rewrite !omap_app, Hw1, Hw2, Hs1, Hs2.
Qed.

Lemma quiet_mkdir name : quiet (OsPath.mkdir name).
Proof.
  intros w w' r. unfold OsPath.mkdir.
  repeat case_match; intros [= <- <-];
    (by exists []; rewrite app_nil_r) || (by exists [Mkdir name]).
Qed.

Lemma quiet_makedirs_fuel fuel name : quiet (OsPath.makedirs_fuel fuel name).
Proof.
  revert name. induction fuel as [|fuel IH]; intros name; [apply quiet_raise|].
  cbn [OsPath.makedirs_fuel].
  destruct (OsPath.split_path name) as [head0 tail0].
  destruct (if bool_decide (tail0 = []) then OsPath.split_path head0
            else (head0, tail0)) as [head tail].
  assert (Hcreate : quiet (try_except (OsPath.mkdir name)
            (fun e w' => if OsPath.isdir name w' then (w', Ok tt)
                         else (w', Raise e)))).
  { apply quiet_try_except; [apply quiet_mkdir|].
    intros e w w' r. destruct (OsPath.isdir name w); intros [= <- <-];
      exists []; by rewrite app_nil_r. }
  intros w w' r.
  destruct (bool_decide (head <> []) && bool_decide (tail <> [])
            && negb (OsPath.exists_ head w)); [|apply Hcreate].
  destruct (try_except (OsPath.makedirs_fuel fuel head) _ w)
    as [w1 [[]|e]] eqn:Hrec; intros Hrun.
  - assert (Hq : quiet (try_except (OsPath.makedirs_fuel fuel head)
       (fun e => match e with
                 | Exn "FileExistsError" _ => ret tt
                 | _ => raise e
                 end))).
    { apply quiet_try_except; [apply IH|].
      intros e. repeat case_match; apply quiet_ret || apply quiet_raise. }
    destruct (Hq _ _ _ Hrec) as (evs1 & Ht1 & Hw1 & Hs1).
    destruct (bool_decide (tail = py ".")).
    + injection Hrun as <- <-. eauto.
    + destruct (Hcreate _ _ _ Hrun) as (evs2 & Ht2 & Hw2 & Hs2).
      exists (evs1 ++ evs2). rewrite Ht2, Ht1, app_assoc.
      unfold written, summaries in *.
      by rewrite !omap_app, Hw1, Hw2, Hs1, Hs2.
  - injection Hrun as <- <-.
    assert (Hq : quiet (try_except (OsPath.makedirs_fuel fuel head)
       (fun e => match e with
                 | Exn "FileExistsError" _ => ret tt
                 | _ => raise e
                 end))).
    { apply quiet_try_except; [apply IH|].
      intros e'. repeat case_match; apply quiet_ret || apply quiet_raise. }
    apply (Hq _ _ _ Hrec).
Qed.

Lemma quiet_makedirs name : quiet (OsPath.makedirs name).
Proof. apply quiet_makedirs_fuel. Qed.

Lemma download_asset_unfold env url local_path output_dir w :
  download_asset env url local_path output_dir w =
    let full_path := OsPath.join output_dir local_path in
    match OsPath.makedirs (OsPath.dirname full_path) w with
    | (w1, Raise e) => (w1, Raise e)
    | (w1, Ok _) =>
        let w2 := emit (HttpGet url) w1 in
        match http_get env url with
        | Raise e => (w2, Ok (Failure (str_of_exn e)))
        | Ok content =>
            match OsPath.write_check env full_path w2 with
            | Raise e => (w2, Ok (Failure (str_of_exn e)))
            | Ok _ =>
                (emit (WriteBytes full_path content)
                   (mkWorld (<[full_path := BytesFile content]> (fs w2))
                            (trace w2)),
                 Ok (Success (length content)))
            end
        end
    end.
Proof.
  unfold download_asset, bind, try_except, requests_get, OsPath.write_bytes, ret.
  cbv zeta.
  destruct (OsPath.makedirs _ w) as [w1 [[]|e]]; [|done].
  destruct (http_get env url) as [content|e]; [|done].
  by destruct (OsPath.write_check env _ _).
Qed.

Lemma loop_body_unfold env url st w :
  loop_body env url st w =
    match url_to_local_path url with
    | Raise e => (w, Raise e)
    | Ok local_path =>
        match download_asset env url local_path OUTPUT_DIR w with
        | (w1, Raise e) => (w1, Raise e)
        | (w1, Ok (Success result)) =>
            (emit (Print (Downloaded local_path result)) w1,
             Ok (mkLoop (dict_set (url_mapping st) url local_path)
                        (total_size st + result)))
        | (w1, Ok (Failure result)) =>
            (emit (Print (FailedLine (take 60 url) result)) w1, Ok st)
        end
    end.
Proof.
  unfold loop_body, bind, lift, print, ret.
  destruct (url_to_local_path url) as [local_path|e]; [|done].
  by destruct (download_asset env url local_path OUTPUT_DIR w) as [w1 [[n|msg]|e]].
Qed.

(** The world after a turn of the loop does not depend on the loop state. *)
Lemma loop_body_world env url st1 st2 w w1 w2 st1' st2' :
  loop_body env url st1 w = (w1, Ok st1') ->
  loop_body env url st2 w = (w2, Ok st2') ->
  w1 = w2.
Proof.
  rewrite !loop_body_unfold.
  destruct (url_to_local_path url) as [local_path|e]; [|done].
  destruct (download_asset env url local_path OUTPUT_DIR w) as [w' [[n|msg]|e]];
    congruence.
Qed.

(** The effects of a download: directories, the request, and the file when
    it succeeds. *)
Lemma download_asset_effects env url local_path output_dir w w' r :
  download_asset env url local_path output_dir w = (w', r) ->
  exists evs,
    trace w' = trace w ++ evs /\ summaries evs = [] /\
    match r with
    | Ok (Success bytes) =>
        exists content,
          http_get env url = Ok content /\ bytes = length content /\
          written evs = [content]
    | _ => written evs = []
    end.
Proof.
  rewrite download_asset_unfold. cbv zeta.
  destruct (OsPath.makedirs _ w) as [w1 [[]|e]] eqn:Hmk;
    destruct (quiet_makedirs _ _ _ _ Hmk) as (mk & Hmk1 & Hmk2 & Hmk3).
  2:{ intros [= <- <-]. eauto. }
  assert (Hw : forall tl, written (mk ++ tl) = written tl).
  { intros tl. unfold written in *. by rewrite omap_app, Hmk2. }
  assert (Hs : forall tl, summaries (mk ++ tl) = summaries tl).
  { intros tl. unfold summaries in *. by rewrite omap_app, Hmk3. }
  destruct (http_get env url) as [content|e].
  2:{ intros [= <- <-]. exists (mk ++ [HttpGet url]). simpl.
      by rewrite Hmk1, app_assoc, Hw, Hs. }
  destruct (OsPath.write_check env _ _).
  - intros [= <- <-].
    exists (mk ++ [HttpGet url; WriteBytes (OsPath.join output_dir local_path) content]).
    simpl. rewrite Hmk1, Hw, Hs, <- !app_assoc.
    split; [done|]. split; [done|]. by exists content.
  - intros [= <- <-]. exists (mk ++ [HttpGet url]). simpl.
    by rewrite Hmk1, app_assoc, Hw, Hs.
Qed.

Lemma dict_set_fresh (d : list (pystr * pystr)) k v :
  k ∉ d.*1 -> dict_set d k v = d ++ [(k, v)].
Proof.
  induction d as [|[k' v'] d IH]; [done|]. simpl.
  intros [Hne Hnot]%not_elem_of_cons.
  rewrite bool_decide_eq_false_2 by done. by rewrite IH.
Qed.

Lemma for_each_app {A S} (xs ys : list A) (body : A -> S -> M S) s w :
  for_each (xs ++ ys) body s w =
    match for_each xs body s w with
    | (w1, Ok s1) => for_each ys body s1 w1
    | (w1, Raise e) => (w1, Raise e)
    end.
Proof.
  revert s w. induction xs as [|x xs IH]; intros s w; [done|].
  simpl. unfold bind. destruct (body x s w) as [w1 [s1|e]]; [apply IH | done].
Qed.

(** What the loop over [urls] adds to its state and to the trace. *)
Lemma for_each_loop_spec env urls : forall st w w' st',
  NoDup urls ->
  (forall u, u ∈ urls -> u ∉ (url_mapping st).*1) ->
  for_each urls (loop_body env) st w = (w', Ok st') ->
  exists new evs,
    url_mapping st' = url_mapping st ++ new /\
    NoDup new.*1 /\
    (forall u p, (u, p) ∈ new <-> exists n, downloaded_in env w urls u p n) /\
    (forall u p, (u, p) ∈ new -> u ∈ urls /\ url_to_local_path u = Ok p) /\
    trace w' = trace w ++ evs /\ summaries evs = [] /\
    total_size st' = (total_size st + sum_list (length <$> written evs))%nat /\
    length new = length (written evs).
Proof.
  induction urls as [|url urls IH]; intros st w w' st' Hnd Hfresh.
  { intros [= <- <-]. exists [], []. rewrite !app_nil_r.
    split; [done|]. split; [constructor|]. split.
    { intros u p. split; [by intros ?%elem_of_nil|].
      intros [n Hn]. inversion Hn. }
    split; [by intros u p ?%elem_of_nil|].
    repeat split; try done. }
  cbn [for_each]. unfold bind.
  destruct (loop_body env url st w) as [w1 [st1|e]] eqn:Hbody; [|done].
  intros Hloop. apply NoDup_cons in Hnd as [Hurl Hnd].
  pose proof Hbody as Hbody'. rewrite loop_body_unfold in Hbody'.
  destruct (url_to_local_path url) as [local_path|e] eqn:Hpath; [|done].
  destruct (download_asset env url local_path OUTPUT_DIR w)
    as [w0 [[n|msg]|e]] eqn:Hdl; [| |done];
    injection Hbody' as <- <-;
    destruct (download_asset_effects _ _ _ _ _ _ _ Hdl) as (evs0 & Ht0 & Hs0 & Hw0).
  - (* the download succeeded: one entry more *)
    destruct Hw0 as (content & Hget & -> & Hw0).
    assert (Hfresh1 : forall u, u ∈ urls ->
              u ∉ (dict_set (url_mapping st) url local_path).*1).
    { intros u Hu. rewrite dict_set_fresh by (apply Hfresh; by left).
      rewrite fmap_app, elem_of_app. cbn.
      intros [Hin|Hin%list_elem_of_singleton]; [|by subst].
      apply (Hfresh u); [by right | done]. }
    destruct (IH (mkLoop (dict_set (url_mapping st) url local_path)
                         (total_size st + length content)) _ _ _
                Hnd Hfresh1 Hloop)
      as (new & evs & Hmap & Hnew & Hiff & Hval & Ht & Hs & Htot & Hlen).
    cbn [url_mapping total_size] in Hmap, Htot.
    rewrite dict_set_fresh in Hmap by (apply Hfresh; by left).
    exists ((url, local_path) :: new),
      (evs0 ++ [Print (Downloaded local_path (length content))] ++ evs).
    split; [by rewrite Hmap, <- app_assoc|]. split.
    { cbn. apply NoDup_cons. split; [|done].
      intros ([u p] & -> & Hin)%list_elem_of_fmap_1.
      by apply Hval in Hin as [? _]. }
    split.
    { intros u p. rewrite elem_of_cons. split.
      - intros [[= -> ->]|Hin].
        + exists (length content). by eapply downloaded_here.
        + apply Hiff in Hin as [m Hm]. exists m.
          by eapply downloaded_later.
      - intros [m Hm]. inversion Hm; subst.
        + left. congruence.
        + right. apply Hiff. exists m.
          match goal with Hb : loop_body _ _ _ _ = _ |- _ =>
            rewrite (loop_body_world _ _ _ _ _ _ _ _ _ Hbody Hb) end.
          done. }
    split.
    { intros u p [[= -> ->]|Hin]%elem_of_cons; [split; [by left | done]|].
      apply Hval in Hin as [? ?]. split; [by right | done]. }
    split.
    { rewrite Ht. cbn [emit trace]. rewrite Ht0, <- !app_assoc. done. }
    unfold written, summaries in *.
    rewrite !omap_app, Hs0, Hs, Hw0. cbn.
    split; [done|]. rewrite Htot, Hlen. cbn. split; lia.
  - (* the download failed: the state is unchanged *)
    assert (Hfresh1 : forall u, u ∈ urls -> u ∉ (url_mapping st).*1).
    { intros u Hu. apply Hfresh. by right. }
    destruct (IH _ _ _ _ Hnd Hfresh1 Hloop)
      as (new & evs & Hmap & Hnew & Hiff & Hval & Ht & Hs & Htot & Hlen).
    exists new, (evs0 ++ [Print (FailedLine (take 60 url) msg)] ++ evs).
    split; [done|]. split; [done|]. split.
    { intros u p. split.
      - intros Hin. apply Hiff in Hin as [m Hm]. exists m.
        by eapply downloaded_later.
      - intros [m Hm]. inversion Hm; subst.
        + congruence.
        + apply Hiff. exists m.
          match goal with Hb : loop_body _ _ _ _ = _ |- _ =>
            rewrite (loop_body_world _ _ _ _ _ _ _ _ _ Hbody Hb) end.
          done. }
    split.
    { intros u p Hin. apply Hval in Hin as [? ?]. split; [by right | done]. }
    split.
    { rewrite Ht. cbn [emit trace]. rewrite Ht0, <- !app_assoc. done. }
    unfold written, summaries in *.
    rewrite !omap_app, Hs0, Hs, Hw0. cbn. done.
Qed.

Lemma main_unfold env w :
  main env w =
    match read_html env with
    | Raise e => (w, Raise e)
    | Ok html =>
        let urls := extract_cdn_urls html in
        match OsPath.makedirs OUTPUT_DIR (emit (Print (Found (size urls))) w) with
        | (w1, Raise e) => (w1, Raise e)
        | (w1, Ok _) =>
            match for_each (sorted urls) (loop_body env) (mkLoop [] 0) w1 with
            | (w2, Raise e) => (w2, Raise e)
            | (w2, Ok st) =>
                let new_html := rewrite html (url_mapping st) in
                let output_html := OsPath.join OUTPUT_DIR (py "index.html") in
                match OsPath.write_check env output_html w2 with
                | Raise e => (w2, Raise e)
                | Ok _ =>
                    (mkWorld (<[output_html := TextFile new_html]> (fs w2))
                       (trace w2 ++
                        [WriteText output_html new_html; Print Rule;
                         Print (Summary (length (url_mapping st)) (total_size st));
                         Print (OutputDirectory OUTPUT_DIR);
                         Print (SavedTo output_html)]),
                     Ok (mkRun html st new_html))
                end
            end
        end
    end.
Proof.
  unfold main, bind, lift, print, ret, OsPath.write_text. cbv zeta.
  destruct (read_html env) as [html|e]; [|done].
  destruct (OsPath.makedirs OUTPUT_DIR _) as [w1 [[]|e]]; [|done].
  destruct (for_each _ _ _ w1) as [w2 [st|e]]; [|done].
  destruct (OsPath.write_check env _ w2); [|done].
  unfold emit. cbn [fs trace]. by rewrite <- !app_assoc.
Qed.

(** What a completed run went through. *)
Lemma main_inv env w w' r :
  main env w = (w', Ok r) ->
  exists w1 w2,
    read_html env = Ok (html_read r) /\
    OsPath.makedirs OUTPUT_DIR
      (emit (Print (Found (size (extract_cdn_urls (html_read r))))) w)
      = (w1, Ok tt) /\
    for_each (sorted (extract_cdn_urls (html_read r))) (loop_body env)
      (mkLoop [] 0) w1 = (w2, Ok (final r)) /\
    new_html r = rewrite (html_read r) (url_mapping (final r)) /\
    trace w' = trace w2 ++
      [WriteText (OsPath.join OUTPUT_DIR (py "index.html")) (new_html r);
       Print Rule;
       Print (Summary (length (url_mapping (final r))) (total_size (final r)));
       Print (OutputDirectory OUTPUT_DIR);
       Print (SavedTo (OsPath.join OUTPUT_DIR (py "index.html")))].
Proof.
  rewrite main_unfold. cbv zeta.
  destruct (read_html env) as [html|e]; [|done].
  destruct (OsPath.makedirs OUTPUT_DIR _) as [w1 [[]|e]] eqn:Hmk; [|done].
  destruct (for_each _ _ _ w1) as [w2 [st|e]] eqn:Hloop; [|done].
  destruct (OsPath.write_check env _ w2); [|done].
  intros [= <- <-]. exists w1, w2. done.
Qed.

(** C9. When the input file cannot be read, the run ends with the
    exception of the read and the world as it was: nothing is extracted, no
    directory is made, nothing is requested, written or printed. *)
Theorem main_aborts_on_unreadable_input env w e :
  read_html env = Raise e -> main env w = (w, Raise e).
Proof. intros Hread. rewrite main_unfold. by rewrite Hread. Qed.

(** C7. At every point of the loop, after the URLs [done] of the sorted set,
    the keys of the mapping are distinct, an entry is in the mapping exactly
    when the download of its URL succeeded at its turn, its URL is one the
    extractor returned and its value is what the mapper gives for that URL,
    and the mapping at any earlier point is an initial part of it: entries
    are added at the end, never changed or removed. *)
Theorem url_mapping_invariant env html w done rest w' st :
  sorted (extract_cdn_urls html) = done ++ rest ->
  for_each done (loop_body env) (mkLoop [] 0) w = (w', Ok st) ->
  NoDup (url_mapping st).*1 /\
  (forall url p,
     (url, p) ∈ url_mapping st <-> exists n, downloaded_in env w done url p n) /\
  (forall url p,
     (url, p) ∈ url_mapping st ->
     url ∈ extract_cdn_urls html /\ url_to_local_path url = Ok p) /\
  (forall done1 done2 w1 st1,
     done = done1 ++ done2 ->
     for_each done1 (loop_body env) (mkLoop [] 0) w = (w1, Ok st1) ->
     url_mapping st1 `prefix_of` url_mapping st).
Proof.
  intros Hsorted Hloop.
  assert (Hnd : NoDup (done ++ rest)).
  { rewrite <- Hsorted. apply NoDup_sorted. }
  apply NoDup_app in Hnd as (Hnd & _ & _).
  destruct (for_each_loop_spec env done (mkLoop [] 0) w w' st Hnd)
    as (new & evs & Hmap & Hnew & Hiff & Hval & _); [|done|].
  { intros u _. apply not_elem_of_nil. }
  cbn in Hmap. subst new. split; [done|]. split; [done|]. split.
  - intros url p [Hin Hp]%Hval. split; [|done].
    apply elem_of_sorted. rewrite Hsorted. apply elem_of_app. by left.
  - intros done1 done2 w1 st1 -> Hloop1.
    rewrite for_each_app, Hloop1 in Hloop.
    apply NoDup_app in Hnd as (Hnd1 & Hdisj & Hnd2).
    destruct (for_each_loop_spec env done1 (mkLoop [] 0) w w1 st1 Hnd1)
      as (new1 & _ & Hmap1 & _ & _ & Hval1 & _); [|done|].
    { intros u _. apply not_elem_of_nil. }
    destruct (for_each_loop_spec env done2 st1 w1 w' st Hnd2)
      as (new2 & _ & Hmap2 & _); [|done|].
    { intros u Hu ([u' p] & -> & Hin)%list_elem_of_fmap_1.
      cbn in Hmap1. rewrite Hmap1 in Hin. apply Hval1 in Hin as [Hin _].
      by apply (Hdisj u'). }
    rewrite Hmap2. by apply prefix_app_r.
Qed.


End Effects.

(** ** The rewrite *)

Section Rewrite.
Context `{UrlParse.LibraryTables}.
Implicit Types s a b x y z u v name dir host : pystr.
Implicit Types mapping : list (pystr * pystr).

Lemma rewrite_app s l1 l2 :
  rewrite s (l1 ++ l2) = rewrite (rewrite s l1) l2.
Proof. apply fold_left_app. Qed.

Lemma rewrite_absent s mapping :
  (forall u p, (u, p) ∈ mapping -> u <> [] /\ ~ occurs u s) ->
  rewrite s mapping = s.
Proof.
  induction mapping as [|[u p] mapping IH]; intros Hno; [done|].
  cbn. destruct (Hno u p) as [Hu Hocc]; [by left|].
  rewrite replace_absent; [|done|by apply not_occurs_contains].
  apply IH. intros u' p' Hin. apply (Hno u' p'). by right.
Qed.

Lemma rewrite_sep a t b mapping :
  (forall u p, (u, p) ∈ mapping -> u <> [] /\ t ∉ u) ->
  rewrite (a ++ t :: b) mapping = rewrite a mapping ++ t :: rewrite b mapping.
Proof.
  revert a b. induction mapping as [|[u p] mapping IH]; intros a b Hno; [done|].
  cbn. destruct (Hno u p) as [Hu Ht]; [by left|].
  rewrite replace_sep by done. apply IH.
  intros u' p' Hin. apply (Hno u' p'). by right.
Qed.

Lemma rewrite_nil mapping :
  (forall u p, (u, p) ∈ mapping -> u <> []) -> rewrite [] mapping = [].
Proof.
  intros Hne. apply rewrite_absent. intros u p Hin.
  split; [apply (Hne u p Hin)|].
  intros (a & c & Heq). specialize (Hne u p Hin).
  destruct a, u; done.
Qed.

(** The shape of an extracted URL and of a local path. *)
Lemma extracted_shape html u :
  u ∈ extract_cdn_urls html ->
  exists host run,
    host ∈ hosts /\ u = host ++ run /\ run <> [] /\ class_text u.
Proof.
  intros (host & pre & Hhost & run & post & -> & _ & Hne & Hrun & _)%extract_cdn_urls_sound.
  exists host, run. repeat split; try done.
  apply class_text_app. split; [by apply class_text_hosts | done].
Qed.

Lemma class_text_not_terminator u t :
  class_text u -> is_terminator t = true -> t ∉ u.
Proof.
  intros Hu Ht Hin. unfold class_text in Hu. rewrite Forall_forall in Hu.
  specialize (Hu t Hin). congruence.
Qed.

Lemma url_to_local_path_shape url p :
  url_to_local_path url = Ok p ->
  exists dir name, dir ∈ directories /\ p = dir ++ name /\ ch "/" ∉ name.
Proof.
  intros Hp. destruct (UrlParse.urlparse_path url) as [parsed|e] eqn:Hparsed.
  2:{ unfold url_to_local_path in Hp. by rewrite Hparsed in Hp. }
  rewrite (url_to_local_path_unfold _ _ Hparsed) in Hp. injection Hp as <-.
  destruct (filename_of_spec (lstrip (py "/") parsed))
    as (seg & [Hseg _] & [_ Hname]).
  eexists _, _. split; [|split; [reflexivity|]].
  - unfold primary_directory, directories.
    repeat case_match; rewrite !elem_of_cons; auto.
  - intros Hin. apply Hseg.
    destruct Hname as [->|[rest ->]]; [done|]. apply elem_of_app. by left.
Qed.

(** A host pattern ends in [m/] or [t/], a directory begins with [a] and
    has a slash only after an [s]: a host pattern cannot end inside a local
    path. *)
Lemma host_not_across host dir name x a rest :
  host ∈ hosts -> dir ∈ directories -> ch "/" ∉ name ->
  x ++ dir ++ name = a ++ host ++ rest ->
  exists l, x = a ++ host ++ l.
Proof.
  intros Hhost Hdir Hname Heq.
  destruct (decide (length (a ++ host) <= length x)%nat) as [Hle|Hgt].
  { rewrite (app_assoc a host rest) in Heq.
    apply app_eq_app_le in Heq as (l & -> & _); [|done].
    exists l. by rewrite <- app_assoc. }
  exfalso. rewrite (app_assoc a host rest) in Heq. symmetry in Heq.
  apply app_eq_app_le in Heq as (l & Hl & Hd); [|lia].
  assert (Hshape : exists h c1,
            host = h ++ [c1; ch "/"] /\ ~ occurs [c1; ch "/"] dir /\
            ~ startswith dir [ch "/"] = true).
  { unfold hosts in Hhost. unfold directories in Hdir.
    rewrite !elem_of_cons, elem_of_nil in Hhost.
    rewrite !elem_of_cons, elem_of_nil in Hdir.
    destruct Hhost as [->|[->|[]]].
    - exists (py "https://cdn.prod.website-files.co"), (ch "m").
      split; [done|].
      destruct Hdir as [->|[->|[->|[->|[]]]]];
        (split; [by apply not_occurs_contains | by vm_compute]).
    - exists (py "https://d3e54v103j8qbb.cloudfront.ne"), (ch "t").
      split; [done|].
      destruct Hdir as [->|[->|[->|[->|[]]]]];
        (split; [by apply not_occurs_contains | by vm_compute]). }
  destruct Hshape as (h & c1 & -> & Hwin & Hhead).
  destruct l as [|e1 l1 _] using rev_ind.
  { rewrite app_nil_r in Hl. subst x. lia. }
  rewrite !app_assoc in Hl.
  change (((a ++ h) ++ [c1; ch "/"])) with ((a ++ h) ++ [c1] ++ [ch "/"]) in Hl.
  rewrite !app_assoc in Hl. apply app_inj_tail in Hl as [Hl <-].
  destruct l1 as [|e0 l0 _] using rev_ind.
  - apply Hhead. apply startswith_spec. simpl in Hd.
    destruct dir as [|d0 dir].
    + exfalso. apply Hname. simpl in Hd. rewrite Hd. by left.
    + injection Hd as -> _. by exists dir.
  - rewrite !app_assoc in Hl. apply app_inj_tail in Hl as [_ <-].
    apply Hwin. apply (occurs_window _ _ dir name); [done|].
    exists l0, rest. rewrite Hd. by rewrite <- !app_assoc.
Qed.

(** *** One stretch of class characters

    The document is a sequence of stretches of class characters separated by
    characters outside the class.  A match of a pattern lies in one stretch
    and goes to its end, and a replacement of a URL works stretch by
    stretch. *)

Section Document.
Variable html : pystr.
Hypothesis Hind : independent (extract_cdn_urls html).
Variable mapping : list (pystr * pystr).
Hypothesis Hkeys : forall u p,
  (u, p) ∈ mapping ->
  u ∈ extract_cdn_urls html /\ url_to_local_path u = Ok p.

Lemma key_extracted u : u ∈ mapping.*1 -> u ∈ extract_cdn_urls html.
Proof.
  intros ([u' p] & -> & Hin)%list_elem_of_fmap_1. by apply Hkeys in Hin as [? _].
Qed.

Lemma extracted_nonempty u : u ∈ extract_cdn_urls html -> u <> [].
Proof.
  intros (host & run & _ & -> & Hrun & _)%extracted_shape.
  by destruct host, run.
Qed.

Section Stretch.
Variables A b B : pystr.
Hypothesis Hhtml : html = A ++ b ++ B.
Hypothesis HA : bounded A.
Hypothesis Hb : class_text b.
Hypothesis HB : stops B.
Implicit Types c l : pystr.

(** A host pattern in the stretch is covered by an extracted URL that ends
    with the stretch. *)
Lemma stretch_host_covered host y r :
  host ∈ hosts -> r <> [] -> b = y ++ host ++ r ->
  exists y0 x, y = y0 ++ x /\ x ++ host ++ r ∈ extract_cdn_urls html.
Proof.
  intros Hhost Hr Hbeq.
  assert (Hmatch : match_at host (A ++ y) (host ++ r) html).
  { exists r, B. split; [done|].
    split; [by rewrite Hhtml, Hbeq, <- !app_assoc|]. split; [done|].
    split; [|done]. rewrite Hbeq in Hb.
    by apply class_text_app in Hb as [_ [_ ?]%class_text_app]. }
  destruct (findall_cover host (class_text_hosts _ Hhost) _ _ _ Hmatch)
    as (pre1 & x & Hpre & Hin & Hm).
  assert (Hx : class_text x).
  { destruct Hm as (run & post & Hu & _ & _ & Hrun & _).
    assert (Hc : class_text (x ++ host ++ r)).
    { rewrite Hu. apply class_text_app.
      split; [by apply class_text_hosts | done]. }
    by apply class_text_app in Hc as [? _]. }
  destruct (decide (length x <= length y)%nat) as [Hle|Hgt].
  - apply app_eq_app_ge in Hpre as (y0 & -> & _); [|done].
    exists y0, x. split; [done|]. apply elem_of_extract_cdn_urls. eauto.
  - exfalso. symmetry in Hpre.
    apply app_eq_app_ge in Hpre as (l & -> & HAeq); [|lia].
    destruct HA as [->|(A' & t & -> & Ht)].
    + destruct pre1, l; done.
    + destruct l as [|e l _] using rev_ind.
      { rewrite length_app in Hgt. simpl in Hgt. lia. }
      rewrite app_assoc in HAeq. apply app_inj_tail in HAeq as [_ ->].
      apply (class_text_not_terminator _ e Hx Ht).
      rewrite !elem_of_app. left. right. by left.
Qed.

(** An extracted URL that occurs in the stretch ends with it, and no other
    extracted URL occurs in the stretch. *)
Lemma stretch_url_at_end v y z :
  v ∈ extract_cdn_urls html -> b = y ++ v ++ z -> z = [].
Proof.
  intros Hv Hbeq.
  destruct (extracted_shape _ _ Hv) as (host & run & Hhost & Hveq & Hrun & _).
  destruct (stretch_host_covered host y (run ++ z) Hhost) as (y0 & x & _ & Hin).
  { by destruct run. }
  { by rewrite Hbeq, Hveq, <- !app_assoc. }
  assert (Heq : v = x ++ host ++ run ++ z).
  { apply Hind; [done..|]. exists x, z. by rewrite Hveq, <- !app_assoc. }
  apply (f_equal length) in Heq. rewrite Hveq, !length_app in Heq.
  destruct z; [done|]. simpl in Heq. lia.
Qed.

Lemma stretch_url_unique v v' y y' :
  v ∈ extract_cdn_urls html -> v' ∈ extract_cdn_urls html ->
  b = y ++ v -> b = y' ++ v' -> v = v' /\ y = y'.
Proof.
  intros Hv Hv' Hbeq Hbeq'. rewrite Hbeq in Hbeq'.
  assert (v = v') as <-.
  { apply app_eq_app in Hbeq' as [l [[_ Hl]|[_ Hl]]].
    - apply Hind; [done..|]. exists l, []. by rewrite app_nil_r.
    - symmetry. apply Hind; [done..|]. exists l, []. by rewrite app_nil_r. }
  split; [done|]. by apply app_inv_tail in Hbeq'.
Qed.

Lemma stretch_no_host_before v x host a l :
  v ∈ extract_cdn_urls html -> b = x ++ v ->
  host ∈ hosts -> x = a ++ host ++ l -> False.
Proof.
  intros Hv Hbeq Hhost Hx.
  destruct (extracted_shape _ _ Hv) as (hv & run & _ & Hveq & Hrun & _).
  destruct (stretch_host_covered host a (l ++ v) Hhost) as (y0 & x' & _ & Hin).
  { rewrite Hveq. intros Hnil%(f_equal length).
    rewrite !length_app in Hnil. destruct run; [done | simpl in Hnil; lia]. }
  { by rewrite Hbeq, Hx, <- !app_assoc. }
  assert (Heq : v = x' ++ host ++ l ++ v).
  { apply Hind; [done..|]. exists (x' ++ host ++ l), [].
    by rewrite app_nil_r, <- !app_assoc. }
  apply (f_equal length) in Heq. rewrite !length_app in Heq.
  apply class_text_hosts in Hhost as Hc.
  assert (host <> []).
  { unfold hosts in Hhost. rewrite !elem_of_cons, elem_of_nil in Hhost.
    by destruct Hhost as [->|[->|[]]]. }
  destruct host; [done|]. simpl in Heq. lia.
Qed.

(** After the URL at the end of the stretch is replaced by its local path,
    no extracted URL occurs in the stretch. *)
Lemma stretch_after_replace v x p u :
  v ∈ extract_cdn_urls html -> b = x ++ v ->
  url_to_local_path v = Ok p ->
  u ∈ extract_cdn_urls html -> ~ occurs u (x ++ p).
Proof.
  intros Hv Hbeq (dir & name & Hdir & -> & Hname)%url_to_local_path_shape Hu.
  destruct (extracted_shape _ _ Hu) as (host & run & Hhost & -> & _ & _).
  intros (a & c & Heq). rewrite <- !app_assoc in Heq.
  destruct (host_not_across _ _ _ _ _ _ Hhost Hdir Hname Heq) as [l Hl].
  by apply (stretch_no_host_before v x host a l).
Qed.

Hypothesis Hnd : NoDup mapping.*1.

(** The rewrite of a stretch: nothing changes, or the one URL at its end
    becomes its local path. *)
Lemma stretch_rewrite :
  (rewrite b mapping = b /\ forall u, u ∈ mapping.*1 -> ~ occurs u b) \/
  (exists x v p,
     b = x ++ v /\ (v, p) ∈ mapping /\ rewrite b mapping = x ++ p /\
     forall u, u ∈ extract_cdn_urls html -> ~ occurs u (x ++ p)).
Proof.
  destruct (decide (Exists (fun u => occurs u b) mapping.*1)) as [Hex|Hno].
  - right. apply Exists_exists in Hex as (v & Hvin & y & z & Hbeq).
    apply list_elem_of_fmap_1 in Hvin as ([v' p] & -> & Hin). cbn in Hbeq.
    destruct (Hkeys _ _ Hin) as [Hv Hp].
    pose proof (stretch_url_at_end v' y z Hv Hbeq) as ->.
    rewrite app_nil_r in Hbeq.
    exists y, v', p. split; [done|]. split; [done|].
    split; [|intros u Hu; by apply (stretch_after_replace v')].
    apply list_elem_of_split in Hin as (l1 & l2 & Hmap).
    rewrite Hmap in Hnd. rewrite fmap_app in Hnd.
    apply NoDup_app in Hnd as (_ & Hdisj & Hnd2).
    rewrite Hmap, rewrite_app. cbn [rewrite fold_left].
    fold (rewrite (replace (rewrite b l1) v' p) l2).
    assert (Hl1 : rewrite b l1 = b).
    { apply rewrite_absent. intros u q Hu.
      assert (Hue : u ∈ extract_cdn_urls html).
      { apply (Hkeys u q). rewrite Hmap. apply elem_of_app. by left. }
      split; [by apply extracted_nonempty|].
      intros (y' & z' & Hbeq').
      pose proof (stretch_url_at_end u y' z' Hue Hbeq') as ->.
      rewrite app_nil_r in Hbeq'.
      destruct (stretch_url_unique _ _ _ _ Hue Hv Hbeq' Hbeq) as [-> _].
      apply (Hdisj v'); [|by left].
      by apply (list_elem_of_fmap_2 fst) in Hu. }
    rewrite Hl1, Hbeq. rewrite replace_at_end.
    + apply rewrite_absent. intros u q Hu.
      assert (Hue : u ∈ extract_cdn_urls html).
      { apply (Hkeys u q). rewrite Hmap. apply elem_of_app. right. by right. }
      split; [by apply extracted_nonempty|].
      by apply (stretch_after_replace v').
    + by apply extracted_nonempty.
    + intros a c Heq. rewrite <- Hbeq in Heq.
      pose proof (stretch_url_at_end v' a c Hv Heq) as ->.
      rewrite app_nil_r, Hbeq in Heq. by apply app_inv_tail in Heq.
  - left. rewrite <- Forall_Exists_neg, Forall_forall in Hno.
    split; [|done]. apply rewrite_absent. intros u p Hin.
    split; [apply extracted_nonempty; by apply (Hkeys u p)|].
    apply Hno. by apply (list_elem_of_fmap_2 fst) in Hin.
Qed.

Lemma stretch_keys_gone u :
  u ∈ mapping.*1 -> ~ occurs u (rewrite b mapping).
Proof.
  intros Hu. destruct stretch_rewrite as [[-> Hno]|(x & v & p & _ & _ & -> & Hno)].
  - by apply Hno.
  - apply Hno. by apply key_extracted.
Qed.

Lemma stretch_path_present u p :
  (u, p) ∈ mapping -> occurs u b -> occurs p (rewrite b mapping).
Proof.
  intros Hin (y & z & Hbeq).
  destruct stretch_rewrite as [[_ Hno]|(x & v & q & Hbx & Hv & -> & _)].
  - exfalso. apply (Hno u); [|by exists y, z].
    by apply (list_elem_of_fmap_2 fst) in Hin.
  - destruct (Hkeys _ _ Hin) as [Hue Hup]. destruct (Hkeys _ _ Hv) as [Hve Hvq].
    pose proof (stretch_url_at_end u y z Hue Hbeq) as ->.
    rewrite app_nil_r in Hbeq.
    destruct (stretch_url_unique _ _ _ _ Hue Hve Hbeq Hbx) as [-> _].
    assert (p = q) as -> by congruence.
    exists x, []. by rewrite app_nil_r.
Qed.

Lemma stretch_failed_kept u a c :
  u ∈ extract_cdn_urls html -> u ∉ mapping.*1 -> b = a ++ u ++ c ->
  c = [] /\ rewrite b mapping = b /\ rewrite a mapping = a.
Proof.
  intros Hue Hnot Hbeq.
  pose proof (stretch_url_at_end u a c Hue Hbeq) as ->.
  split; [done|]. rewrite app_nil_r in Hbeq.
  destruct stretch_rewrite as [[Hrw Hno]|(x & v & q & Hbx & Hv & _)].
  - split; [done|]. apply rewrite_absent. intros k q Hk.
    split; [apply extracted_nonempty; by apply (Hkeys k q)|].
    intros Hocc. apply (Hno k).
    + by apply (list_elem_of_fmap_2 fst) in Hk.
    + rewrite Hbeq. by apply occurs_app_l.
  - exfalso. destruct (Hkeys _ _ Hv) as [Hve _].
    destruct (stretch_url_unique _ _ _ _ Hue Hve Hbeq Hbx) as [-> _].
    apply Hnot. by apply (list_elem_of_fmap_2 fst) in Hv.
Qed.

End Stretch.

Hypothesis Hnd : NoDup mapping.*1.

Lemma key_sep u t : u ∈ extract_cdn_urls html -> is_terminator t = true -> t ∉ u.
Proof.
  intros (host & run & _ & _ & _ & Hc)%extracted_shape Ht.
  by apply class_text_not_terminator.
Qed.

Lemma rewrite_sep_keys a t b :
  is_terminator t = true ->
  rewrite (a ++ t :: b) mapping = rewrite a mapping ++ t :: rewrite b mapping.
Proof.
  intros Ht. apply rewrite_sep. intros u p Hin.
  destruct (Hkeys _ _ Hin) as [Hue _].
  split; [by apply extracted_nonempty | by apply key_sep].
Qed.

(** The rewrite of the rest of the document from the start of a stretch. *)
Lemma rewrite_document s : forall A,
  html = A ++ s -> bounded A ->
  (forall u, u ∈ mapping.*1 -> ~ occurs u (rewrite s mapping)) /\
  (forall u p, (u, p) ∈ mapping -> occurs u s -> occurs p (rewrite s mapping)) /\
  (forall u a c,
     u ∈ extract_cdn_urls html -> u ∉ mapping.*1 -> s = a ++ u ++ c ->
     rewrite s mapping = rewrite a mapping ++ u ++ rewrite c mapping).
Proof.
  remember (length s) as n eqn:Hn. revert s Hn.
  induction n as [n IH] using lt_wf_ind. intros s Hn A Hhtml HA.
  destruct (class_run_spec s) as (post & Hs & Hrun & Hstop).
  set (b := class_run s) in *.
  assert (Hhtml' : html = A ++ b ++ post) by (by rewrite <- Hs).
  destruct post as [|t post].
  - rewrite app_nil_r in Hs. rewrite Hs. split; [|split].
    + intros u Hu.
      by apply (stretch_keys_gone A b [] Hhtml' HA Hrun Hstop Hnd u).
    + intros u p Hin Hocc.
      by apply (stretch_path_present A b [] Hhtml' HA Hrun Hstop Hnd u p).
    + intros u a c Hue Hnot Hbeq.
      destruct (stretch_failed_kept A b [] Hhtml' HA Hrun Hstop Hnd u a c)
        as (-> & -> & ->); [done..|].
      rewrite rewrite_nil; [by rewrite Hbeq|].
      intros k q Hk. apply extracted_nonempty. by apply (Hkeys k q).
  - simpl in Hstop.
    destruct (IH (length post)) with (s := post) (A := A ++ b ++ [t])
      as (IH1 & IH2 & IH3).
    { subst n. rewrite Hs, length_app. simpl. lia. }
    { done. }
    { by rewrite Hhtml', <- !app_assoc. }
    { right. exists (A ++ b), t. by rewrite <- app_assoc. }
    rewrite Hs, rewrite_sep_keys by done. split; [|split].
    + intros u Hu Hocc. apply occurs_sep in Hocc as [Hocc|Hocc].
      * by apply (stretch_keys_gone A b (t :: post) Hhtml' HA Hrun Hstop Hnd u).
      * by apply (IH1 u).
      * apply key_sep; [by apply key_extracted | done].
    + intros u p Hin Hocc. apply occurs_sep in Hocc as [Hocc|Hocc].
      * apply occurs_app_l.
        by apply (stretch_path_present A b (t :: post) Hhtml' HA Hrun Hstop Hnd u p).
      * apply occurs_app_r. apply (occurs_app_r _ [t]). by apply (IH2 u p).
      * apply key_sep; [|done]. by apply (Hkeys u p).
    + intros u a c Hue Hnot Heq. symmetry in Heq.
      apply occurs_split_at in Heq as [(z & Hb & ->)|(a' & -> & Hpost)];
        [| |by apply key_sep].
      * destruct (stretch_failed_kept A b (t :: post) Hhtml' HA Hrun Hstop Hnd
                    u a z) as (-> & -> & ->); [done..|].
        rewrite (rewrite_sep_keys [] t post) by done.
        rewrite rewrite_nil; [by rewrite Hb, <- !app_assoc|].
        intros k q Hk. apply extracted_nonempty. by apply (Hkeys k q).
      * rewrite (IH3 u a' c) by done.
        rewrite rewrite_sep_keys by done. by rewrite <- !app_assoc.
Qed.

End Document.

(** The mapping of a completed run: its keys are extracted URLs, each with
    the path of the mapper, and they are distinct. *)
Lemma main_mapping env w w' r :
  main env w = (w', Ok r) ->
  new_html r = rewrite (html_read r) (url_mapping (final r)) /\
  NoDup (url_mapping (final r)).*1 /\
  (forall u p, (u, p) ∈ url_mapping (final r) ->
     u ∈ extract_cdn_urls (html_read r) /\ url_to_local_path u = Ok p) /\
  (forall w1,
     OsPath.makedirs OUTPUT_DIR
       (emit (Print (Found (size (extract_cdn_urls (html_read r))))) w)
       = (w1, Ok tt) ->
     forall u p,
       (u, p) ∈ url_mapping (final r) <->
       exists n, downloaded_in env w1
                   (sorted (extract_cdn_urls (html_read r))) u p n).
Proof.
  intros (w1 & w2 & _ & Hmk & Hloop & Hnew & _)%main_inv.
  destruct (for_each_loop_spec env _ (mkLoop [] 0) w1 w2 (final r)
              (NoDup_sorted (extract_cdn_urls (html_read r))))
    as (new & evs & Hmap & Hnd & Hiff & Hval & _); [|done|].
  { intros u _. apply not_elem_of_nil. }
  cbn in Hmap. subst new. split; [done|]. split; [done|]. split.
  - intros u p [Hin Hp]%Hval. split; [by apply elem_of_sorted | done].
  - intros w1' Hmk'. rewrite Hmk in Hmk'. by injection Hmk' as <-.
Qed.

(** C1, as amended.  In a completed run whose extracted URLs do not occur
    inside one another, every downloaded URL occurred in the document, does
    not occur in the rewritten document, and its local path occurs there. *)
Theorem rewrite_round_trip env w w' r :
  main env w = (w', Ok r) ->
  independent (extract_cdn_urls (html_read r)) ->
  forall url p,
    (url, p) ∈ url_mapping (final r) ->
    occurs url (html_read r) /\
    ~ occurs url (new_html r) /\
    occurs p (new_html r).
Proof.
  intros (Hnew & Hnd & Hkeys & _)%main_mapping Hind url p Hin.
  assert (Hocc : occurs url (html_read r)).
  { destruct (Hkeys _ _ Hin) as [Hue _].
    apply extract_cdn_urls_sound in Hue
      as (host & pre & _ & run & post & _ & -> & _).
    by exists pre, post. }
  destruct (rewrite_document (html_read r) Hind _ Hkeys Hnd (html_read r) [])
    as (Hgone & Hpresent & _); [done | by left|].
  rewrite Hnew. split; [done|]. split.
  - apply Hgone. by apply (list_elem_of_fmap_2 fst) in Hin.
  - by apply (Hpresent url p).
Qed.


End Rewrite.

(** A run whose input file is missing. *)
Lemma main_aborts_on_unreadable_input_witness :
  main (H := ascii_tables)
    {| read_html := Raise (Exn "FileNotFoundError" (py "index.html"));
       http_get := fun _ => Ok [];
       write_fault := fun _ => None |}
    (mkWorld ∅ [])
  = (mkWorld ∅ [], Raise (Exn "FileNotFoundError" (py "index.html"))).
Proof. by apply (main_aborts_on_unreadable_input (H := ascii_tables)). Defined.

(** ** Examples *)

(** The claim C1 as it is stated fails when one downloaded URL begins with
    another: the shorter one is replaced first, inside the longer one too,
    and the local path of the longer one never appears. *)
Lemma rewrite_round_trip_nested_url :
  ~ (forall (T : UrlParse.LibraryTables) env w w' r,
       main env w = (w', Ok r) ->
       forall url p,
         (url, p) ∈ url_mapping (final r) ->
         ~ occurs url (new_html r) /\ occurs p (new_html r)).
Proof.
  intros Hclaim.
  pose (env := all_succeed
    "https://cdn.prod.website-files.com/s/a https://cdn.prod.website-files.com/s/a/b.png").
  destruct (main (H := ascii_tables) env empty_world) as [w' [r|e]] eqn:Hrun;
    vm_compute in Hrun; [|discriminate].
  specialize (Hclaim ascii_tables env empty_world w' r).
  injection Hrun as <- <-.
  destruct (Hclaim ltac:(by vm_compute)
              (py "https://cdn.prod.website-files.com/s/a/b.png")
              (py "assets/images/b.png")) as [_ Hocc].
  { right. left. }
  apply occurs_contains in Hocc. vm_compute in Hocc. discriminate.
Qed.


(** An error of the directory creation is outside the [try] of
    [download_asset]: here the first asset is written to the file
    [assets/images], the directory of the second one, and the run ends
    with the [FileExistsError] of [os.makedirs]. *)
Lemma makedirs_error_ends_the_run :
  exists w',
    main (H := ascii_tables)
      (all_succeed
         "https://cdn.prod.website-files.com/images https://cdn.prod.website-files.com/x/logo.png")
      empty_world
    = (w', Raise (Exn "FileExistsError" (py "breathscape-site/assets/images"))).
Proof. vm_compute. eexists. reflexivity. Qed.

(** A document with one image, downloaded and rewritten. *)
Lemma independent_singleton (u : pystr) : independent {[u]}.
Proof. intros a b Ha Hb _. set_solver. Qed.

Lemma rewrite_round_trip_witness :
  exists w' r,
    main (H := ascii_tables)
      (all_succeed "<img src=https://cdn.prod.website-files.com/site/img/logo.png >")
      empty_world = (w', Ok r) /\
    occurs (py "https://cdn.prod.website-files.com/site/img/logo.png")
      (html_read r) /\
    ~ occurs (py "https://cdn.prod.website-files.com/site/img/logo.png")
      (new_html r) /\
    occurs (py "assets/images/logo.png") (new_html r).
Proof.
  eexists _, _. split; [vm_compute; reflexivity|].
  eapply (rewrite_round_trip (H := ascii_tables)
            (all_succeed "<img src=https://cdn.prod.website-files.com/site/img/logo.png >")
            empty_world).
  - vm_compute. reflexivity.
  - cbn [html_read].
    replace (extract_cdn_urls _)
      with ({[py "https://cdn.prod.website-files.com/site/img/logo.png"]}
              : gset pystr) by (vm_compute; reflexivity).
    apply independent_singleton.
  - cbn [final url_mapping]. left.
Defined.



(** The mapper on a URL that [urlparse] accepts. *)
Lemma url_to_local_path_total_on_parsed_witness :
  exists rest,
    url_to_local_path (H := ascii_tables) (py "https://example.com/foo/bar.pdf")
      = Ok (py "assets/" ++ rest) /\
    py "assets/" ++ rest <> [].
Proof.
  apply (proj1 (proj2 (proj2 (url_to_local_path_total_on_parsed
           (H := ascii_tables) (py "https://example.com/foo/bar.pdf"))))
           (py "/foo/bar.pdf")).
  vm_compute. reflexivity.
Defined.


(** The loop over a document with two assets, the second one refused. *)
Lemma url_mapping_invariant_witness :
  exists w' st,
    for_each
      [py "https://cdn.prod.website-files.com/a.css";
       py "https://cdn.prod.website-files.com/b.png"]
      (loop_body (H := ascii_tables)
         (fails_on "https://cdn.prod.website-files.com/b.png"
            "https://cdn.prod.website-files.com/b.png https://cdn.prod.website-files.com/a.css"))
      (mkLoop [] 0) empty_world = (w', Ok st) /\
    url_mapping st =
      [(py "https://cdn.prod.website-files.com/a.css", py "assets/a.css")] /\
    NoDup (url_mapping st).*1.
Proof.
  eexists _, _. split; [vm_compute; reflexivity|]. split; [reflexivity|].
  refine (proj1 (url_mapping_invariant (H := ascii_tables)
           (fails_on "https://cdn.prod.website-files.com/b.png"
              "https://cdn.prod.website-files.com/b.png https://cdn.prod.website-files.com/a.css")
           (py "https://cdn.prod.website-files.com/b.png https://cdn.prod.website-files.com/a.css")
           empty_world
           [py "https://cdn.prod.website-files.com/a.css";
            py "https://cdn.prod.website-files.com/b.png"] [] _ _ _ _)).
  - vm_compute. reflexivity.
  - vm_compute. reflexivity.
Defined.


(** ** Further properties of the four functions *)

(** *** The extractor works on each side of a character outside the class *)

Section ExtractorComposition.
Implicit Types a b s host : pystr.

Lemma stops_app post t b :
  is_terminator t = true -> stops post -> stops (post ++ t :: b).
Proof. intros Ht Hpost. by destruct post. Qed.

Lemma match_here_sep host a t b :
  class_text host -> is_terminator t = true ->
  match_here host (a ++ t :: b) = match_here host a.
Proof.
  intros Hhost Ht.
  destruct (match_here host a) as [m|] eqn:Hm.
  - apply match_here_spec in Hm as (run & post & -> & -> & Hne & Hrun & Hstop).
    apply match_here_spec. exists run, (post ++ t :: b). simpl.
    rewrite <- !app_assoc. repeat split; try done. by apply stops_app.
  - destruct (match_here host (a ++ t :: b)) as [m|] eqn:Hm'; [|done].
    apply match_here_spec in Hm' as (run & post & -> & Heq & Hne & Hrun & Hstop).
    simpl in Heq.
    assert (Hnot : t ∉ host ++ run).
    { apply class_text_not_terminator; [|done]. by apply class_text_app. }
    change ((host ++ run) ++ post) with ([] ++ (host ++ run) ++ post) in Heq.
    symmetry in Heq.
    destruct (occurs_split_at _ _ _ _ _ _ Heq Hnot) as [(z & Ha & Hpost)|(a' & ? & _)];
      [|by destruct a].
    assert (Hsome : match_here host a = Some (host ++ run)); [|congruence].
    apply match_here_spec. exists run, z. simpl in *.
    repeat split; try done. destruct z; [done|]. by subst post.
Qed.

Lemma findall_sep host a t b :
  class_text host -> is_terminator t = true ->
  findall host (a ++ t :: b) = findall host a ++ findall host b.
Proof.
  intros Hhost Ht. remember (length a) as n eqn:Hn. revert a Hn.
  induction n as [n IH] using lt_wf_ind. intros [|c a] Hn.
  - change ([] ++ t :: b) with (t :: b). rewrite findall_cons.
    change (t :: b) with ([] ++ t :: b) at 1.
    rewrite (match_here_sep host [] t b) by done.
    by destruct host.
  - change ((c :: a) ++ t :: b) with (c :: (a ++ t :: b)).
    rewrite !findall_cons.
    change (c :: (a ++ t :: b)) with ((c :: a) ++ t :: b).
    rewrite match_here_sep by done.
    destruct (match_here host (c :: a)) as [m|] eqn:Hm.
    + apply match_here_spec in Hm as (run & post & -> & Heq & Hne & _).
      simpl in Heq. rewrite Heq, <- app_assoc, !drop_app_length. simpl.
      f_equal. apply (IH (length post)); [|done].
      subst n. rewrite Heq, length_app. destruct host, run; simpl; try done; lia.
    + apply (IH (length a)); [subst n; simpl; lia | done].
Qed.

(** X1. A character outside the class separates the document for the
    extractor: the URLs of the whole are those of the part before it and
    those of the part after it. *)
Theorem extract_cdn_urls_sep a t b :
  is_terminator t = true ->
  extract_cdn_urls (a ++ t :: b) = extract_cdn_urls a ∪ extract_cdn_urls b.
Proof.
  intros Ht. unfold extract_cdn_urls.
  rewrite !findall_sep, !list_to_set_app_L
    by (done || (apply class_text_hosts; unfold hosts; rewrite !elem_of_cons; auto)).
  apply set_eq. intros u. rewrite !elem_of_union. tauto.
Qed.

End ExtractorComposition.

Lemma extract_cdn_urls_sep_witness :
  extract_cdn_urls (py "https://cdn.prod.website-files.com/a.css" ++ ch " " ::
                    py "https://d3e54v103j8qbb.cloudfront.net/j.js")
  = extract_cdn_urls (py "https://cdn.prod.website-files.com/a.css")
    ∪ extract_cdn_urls (py "https://d3e54v103j8qbb.cloudfront.net/j.js").
Proof. apply extract_cdn_urls_sep. reflexivity. Defined.

(** *** The shape of a local path *)

Section LocalPathShape.
Context `{UrlParse.LibraryTables}.
Implicit Types s url : pystr.

Lemma before_first_sub c s x : x ∈ before_first c s -> x ∈ s.
Proof.
  unfold before_first. destruct (find c s); [|done].
  apply (subseteq_take n s).
Qed.

Lemma before_first_free c s : c ∉ before_first c s.
Proof.
  unfold before_first. induction s as [|a s IH]; simpl; [apply not_elem_of_nil|].
  destruct (N.eqb_spec a c) as [->|Hne]; simpl; [apply not_elem_of_nil|].
  destruct (find c s) as [i|]; simpl; apply not_elem_of_cons; split; auto.
Qed.

Lemma lstrip_sub chars s x : x ∈ lstrip chars s -> x ∈ s.
Proof.
  induction s as [|a s IH]; simpl; [done|].
  destruct (char_in a chars); [|done]. intros Hin. right. by apply IH.
Qed.

Lemma replace_delete_sub s old x : x ∈ replace s old [] -> x ∈ s.
Proof.
  destruct old as [|o old].
  - unfold replace. simpl. induction s as [|a s IH]; simpl; [done|].
    intros [->|Hin]%elem_of_cons; [by left|].
    right. by apply IH.
  - remember (length s) as n eqn:Hn. revert s Hn.
    induction n as [n IH] using lt_wf_ind. intros [|a s] Hn; [done|].
    destruct (startswith (a :: s) (o :: old)) eqn:Hsw.
    + apply startswith_spec in Hsw as [r Hr]. rewrite Hr.
      rewrite replace_match by done. intros Hin. cbn [app] in Hin.
      apply elem_of_app. right. apply (IH (length r)); [|done|done].
      subst n. rewrite Hr, length_app. simpl. lia.
    + rewrite replace_no_match by done.
      intros [->|Hin]%elem_of_cons; [by left|]. right.
      apply (IH (length s)); [subst n; simpl; lia | done | done].
Qed.

Lemma span_netloc_sub s x : x ∈ (UrlParse.span_netloc s).2 -> x ∈ s.
Proof.
  induction s as [|a s IH]; [done|]. cbn [UrlParse.span_netloc].
  destruct (char_in a (py "/?#")); [done|].
  destruct (UrlParse.span_netloc s) as [n r]. cbn [snd] in *. intros Hin.
  right. by apply IH.
Qed.

Lemma splitparams_sub s x : x ∈ UrlParse._splitparams s -> x ∈ s.
Proof.
  unfold UrlParse._splitparams, find_from.
  destruct (rfind (ch "/") s) as [j|].
  - destruct (find (ch ";") (drop j s)) as [i|]; simpl; [|done].
    apply (subseteq_take _ s).
  - destruct (find (ch ";") s) as [i|]; [apply (subseteq_take _ s)|].
    intros Hin. destruct s as [|a s] using rev_ind; [done|].
    rewrite removelast_last in Hin. apply elem_of_app. by left.
Qed.

(** The path of a parse is made of characters of the URL and has neither a
    question mark nor a hash. *)
Lemma urlparse_path_spec url parsed :
  UrlParse.urlparse_path url = Ok parsed ->
  (forall x, x ∈ parsed -> x ∈ url) /\
  (ch "?" ∉ parsed) /\ (ch "#" ∉ parsed).
Proof.
  unfold UrlParse.urlparse_path, UrlParse.urlsplit.
  set (cleaned := fold_left _ _ _).
  assert (Hclean : forall x, x ∈ cleaned -> x ∈ url).
  { intros x. subst cleaned. unfold UrlParse.UNSAFE_URL_BYTES_TO_REMOVE.
    cbn [fold_left]. intros Hin.
    do 3 apply replace_delete_sub in Hin. by apply lstrip_sub in Hin. }
  destruct (match find (ch ":") cleaned with
            | Some i => _ | None => _ end) as [scheme u1] eqn:Hscheme.
  assert (Hu1 : forall x, x ∈ u1 -> x ∈ cleaned).
  { destruct (find (ch ":") cleaned) as [i|]; [|by injection Hscheme as _ <-].
    destruct (_ && _); injection Hscheme as _ <-; [|done].
    intros x. apply (subseteq_drop _ cleaned). }
  clear Hscheme.
  set (split := if bool_decide (take 2 u1 = py "//") then _ else _).
  assert (Hsplit : forall netloc u2, split = Ok (netloc, u2) ->
            forall x, x ∈ u2 -> x ∈ u1).
  { subst split. intros netloc u2. destruct (bool_decide _).
    - unfold UrlParse._splitnetloc.
      pose proof (span_netloc_sub (drop 2 u1)) as Hsub.
      destruct (UrlParse.span_netloc (drop 2 u1)) as [n r]. simpl in Hsub.
      destruct (_ || _); [done|].
      destruct (if _ && _ then _ else _); [|done].
      simpl. intros [= _ <-] x Hx. apply (subseteq_drop 2 u1). by apply Hsub.
    - by intros [= _ <-]. }
  destruct split as [[netloc u2]|e]; [|done]. simpl.
  specialize (Hsplit netloc u2 eq_refl).
  destruct (UrlParse._checknetloc netloc); [|done]. simpl.
  set (path := before_first (ch "?") (before_first (ch "#") u2)).
  assert (Hpath : (forall x, x ∈ path -> x ∈ url) /\
                  (ch "?" ∉ path) /\ (ch "#" ∉ path)).
  { split; [|split].
    - intros x Hx. apply Hclean, Hu1, Hsplit.
      by do 2 apply before_first_sub in Hx.
    - apply before_first_free.
    - intros Hin%before_first_sub. by apply before_first_free in Hin. }
  destruct Hpath as (Hsub & Hq & Hf).
  destruct (_ && _); intros [= <-]; [|done].
  split; [|split].
  - intros x Hx%splitparams_sub. by apply Hsub.
  - by intros Hx%splitparams_sub.
  - by intros Hx%splitparams_sub.
Qed.

Lemma filename_of_sub s x :
  x ∈ filename_of (split (ch "/") s) -> x ∈ s.
Proof.
  unfold filename_of. intros Hx.
  destruct (split_first_segment (ch "?") (last_part (split (ch "/") s)))
    as [_ Hfirst].
  destruct (split_last_segment (ch "/") s) as [_ Hlast].
  assert (Hseg : x ∈ last_part (split (ch "/") s)).
  { destruct Hfirst as [->|[rest ->]]; [done|]. apply elem_of_app. by left. }
  destruct Hlast as [->|[pre ->]]; [done|].
  apply elem_of_app. right. by right.
Qed.

(** X2. A local path is one of the four directories followed by a file
    name; the file name is made of characters of the URL and has no slash,
    no question mark and no hash: the file lies directly in its directory,
    and the query and the fragment of the URL leave no trace in it. *)
Theorem url_to_local_path_flat url p :
  url_to_local_path url = Ok p ->
  exists dir name,
    dir ∈ directories /\ p = dir ++ name /\
    (forall x, x ∈ name -> x ∈ url) /\
    (forall x, x ∈ py "/?#" -> x ∉ name).
Proof.
  intros Hp. destruct (UrlParse.urlparse_path url) as [parsed|e] eqn:Hparsed.
  2:{ unfold url_to_local_path in Hp. by rewrite Hparsed in Hp. }
  destruct (urlparse_path_spec _ _ Hparsed) as (Hsub & Hq & Hf).
  rewrite (url_to_local_path_unfold _ _ Hparsed) in Hp. injection Hp as <-.
  destruct (filename_of_spec (lstrip (py "/") parsed))
    as (seg & [Hseg _] & [Hnoq Hname]).
  eexists _, _. split; [|split; [reflexivity|split]].
  - unfold primary_directory, directories.
    repeat case_match; rewrite !elem_of_cons; auto.
  - intros x Hx%filename_of_sub. by apply lstrip_sub, Hsub in Hx.
  - intros x Hx Hin.
    assert (Hparsed_in : x ∈ parsed).
    { apply filename_of_sub in Hin. by apply lstrip_sub in Hin. }
    change (py "/?#") with [ch "/"; ch "?"; ch "#"] in Hx.
    rewrite !elem_of_cons, elem_of_nil in Hx.
    destruct Hx as [->|[->|[->|[]]]]; [|done..].
    apply Hseg. destruct Hname as [->|[rest ->]]; [done|].
    apply elem_of_app. by left.
Qed.

End LocalPathShape.

Lemma url_to_local_path_flat_witness :
  exists dir name,
    dir ∈ directories /\
    py "assets/css/main.css" = dir ++ name /\
    (forall x, x ∈ name ->
       x ∈ py "https://cdn.prod.website-files.com/abc123/css/main.css?v=2#top") /\
    (forall x, x ∈ py "/?#" -> x ∉ name).
Proof.
  apply (url_to_local_path_flat (H := ascii_tables)
           (py "https://cdn.prod.website-files.com/abc123/css/main.css?v=2#top")).
  vm_compute. reflexivity.
Defined.

(** *** The disk *)

Section Disk.
Context `{UrlParse.LibraryTables}.
Implicit Types w : world.
Implicit Types k file name : pystr.

Lemma keeps_nodes_ret {A} (a : A) : keeps_nodes (ret a).
Proof. by intros w w' r [= <- <-]. Qed.

Lemma keeps_nodes_raise {A} e : keeps_nodes (raise (A := A) e).
Proof. by intros w w' r [= <- <-]. Qed.

Lemma keeps_nodes_try_except {A} (body : M A) handler :
  keeps_nodes body -> (forall e, keeps_nodes (handler e)) ->
  keeps_nodes (try_except body handler).
Proof.
  intros Hbody Hhandler w w' r. unfold try_except.
  destruct (body w) as [w1 [a|e]] eqn:Hrun.
  - intros [= <- <-]. by apply (Hbody _ _ _ Hrun).
  - intros Hh k node Hk. apply (Hhandler _ _ _ _ Hh).
    by apply (Hbody _ _ _ Hrun).
Qed.

Lemma keeps_nodes_mkdir name : keeps_nodes (OsPath.mkdir name).
Proof.
  intros w w' r. unfold OsPath.mkdir.
  destruct (fs w !! name) eqn:Hname; [by intros [= <- <-]|].
  repeat case_match; intros [= <- <-]; try done;
    intros k node Hk; cbn; (rewrite lookup_insert_ne; [done|congruence]).
Qed.

Lemma keeps_nodes_makedirs_fuel fuel name :
  keeps_nodes (OsPath.makedirs_fuel fuel name).
Proof.
  revert name. induction fuel as [|fuel IH]; intros name;
    [apply keeps_nodes_raise|].
  cbn [OsPath.makedirs_fuel].
  destruct (OsPath.split_path name) as [head0 tail0].
  destruct (if bool_decide (tail0 = []) then OsPath.split_path head0
            else (head0, tail0)) as [head tail].
  assert (Hcreate : keeps_nodes (try_except (OsPath.mkdir name)
            (fun e w' => if OsPath.isdir name w' then (w', Ok tt)
                         else (w', Raise e)))).
  { apply keeps_nodes_try_except; [apply keeps_nodes_mkdir|].
    intros e w w' r. by destruct (OsPath.isdir name w); intros [= <- <-]. }
  assert (Hparent : keeps_nodes (try_except (OsPath.makedirs_fuel fuel head)
       (fun e => match e with
                 | Exn "FileExistsError" _ => ret tt
                 | _ => raise e
                 end))).
  { apply keeps_nodes_try_except; [apply IH|].
    intros e. repeat case_match; apply keeps_nodes_ret || apply keeps_nodes_raise. }
  intros w w' r.
  destruct (bool_decide (head <> []) && bool_decide (tail <> [])
            && negb (OsPath.exists_ head w)); [|apply Hcreate].
  destruct (try_except (OsPath.makedirs_fuel fuel head) _ w)
    as [w1 [[]|e]] eqn:Hrec; intros Hrun.
  - destruct (bool_decide (tail = py ".")).
    + injection Hrun as <- <-. apply (Hparent _ _ _ Hrec).
    + intros k node Hk. apply (Hcreate _ _ _ Hrun).
      by apply (Hparent _ _ _ Hrec).
  - injection Hrun as <- <-. apply (Hparent _ _ _ Hrec).
Qed.

Lemma keeps_nodes_makedirs name : keeps_nodes (OsPath.makedirs name).
Proof. apply keeps_nodes_makedirs_fuel. Qed.

(** A write is refused on a directory. *)
Lemma write_check_not_dir env file w :
  OsPath.write_check env file w = Ok tt -> fs w !! file <> Some Dir.
Proof.
  unfold OsPath.write_check, OsPath.isdir.
  destruct (OsPath.split_path file) as [parent name].
  intros Hcheck Hdir. rewrite Hdir in Hcheck.
  repeat case_match; try done;
    by rewrite !orb_true_r in *.
Qed.

(** What a download does to the disk. *)
Lemma download_asset_disk env url local_path output_dir w w' r :
  download_asset env url local_path output_dir w = (w', r) ->
  (forall k node, fs w !! k = Some node ->
     k <> OsPath.join output_dir local_path -> fs w' !! k = Some node) /\
  (forall k, fs w !! k = Some Dir -> fs w' !! k = Some Dir) /\
  match r with
  | Ok (Success bytes) =>
      exists content,
        http_get env url = Ok content /\ bytes = length content /\
        fs w' !! OsPath.join output_dir local_path = Some (BytesFile content)
  | _ => forall k node, fs w !! k = Some node -> fs w' !! k = Some node
  end.
Proof.
  rewrite download_asset_unfold. cbv zeta.
  destruct (OsPath.makedirs _ w) as [w1 [[]|e]] eqn:Hmk;
    pose proof (keeps_nodes_makedirs _ _ _ _ Hmk) as Hkeep.
  2:{ intros [= <- <-]. auto. }
  destruct (http_get env url) as [content|e].
  2:{ intros [= <- <-]. auto. }
  destruct (OsPath.write_check env _ _) as [[]|e] eqn:Hcheck.
  2:{ intros [= <- <-]. auto. }
  intros [= <- <-]. cbn [fs emit].
  split; [|split].
  - intros k node Hk Hne. rewrite lookup_insert_ne by done. by apply Hkeep.
  - intros k Hk. apply Hkeep in Hk.
    rewrite lookup_insert_ne; [done|]. intros <-.
    by apply write_check_not_dir in Hcheck.
  - exists content. by rewrite lookup_insert_eq.
Qed.

(** X3. A download changes the disk only by adding directories and, when
    it succeeds, by storing the response body in its file: that file then
    holds the body, every other node is kept, and a directory is never
    replaced.  A download that fails or raises keeps every node. *)
Theorem download_asset_stores_body env url local_path output_dir w w' r :
  download_asset env url local_path output_dir w = (w', r) ->
  (forall k node, fs w !! k = Some node ->
     k <> OsPath.join output_dir local_path -> fs w' !! k = Some node) /\
  (forall k, fs w !! k = Some Dir -> fs w' !! k = Some Dir) /\
  (forall bytes, r = Ok (Success bytes) ->
     exists content,
       http_get env url = Ok content /\ bytes = length content /\
       fs w' !! OsPath.join output_dir local_path = Some (BytesFile content)) /\
  ((forall bytes, r <> Ok (Success bytes)) ->
     forall k node, fs w !! k = Some node -> fs w' !! k = Some node).
Proof.
  intros (Hframe & Hdirs & Hres)%download_asset_disk.
  split; [done|]. split; [done|]. split.
  - by intros bytes ->.
  - intros Hfail. destruct r as [[n|msg]|e]; try done. by destruct (Hfail n).
Qed.

(** The file of an asset lies under the output directory, and is not the
    file of the document. *)
Lemma join_output_dir url local_path :
  url_to_local_path url = Ok local_path ->
  OsPath.join OUTPUT_DIR local_path = py "breathscape-site/" ++ local_path /\
  OsPath.join OUTPUT_DIR local_path <> OUTPUT_HTML.
Proof.
  intros (dir & name & Hdir & -> & _)%url_to_local_path_shape.
  unfold directories in Hdir. rewrite !elem_of_cons, elem_of_nil in Hdir.
  destruct Hdir as [->|[->|[->|[->|[]]]]]; split; vm_compute; done.
Qed.

(** The loop keeps the nodes outside the output directory, and every
    directory. *)
Lemma for_each_keeps env urls : forall st w w' r,
  for_each urls (loop_body env) st w = (w', r) ->
  (forall k node, fs w !! k = Some node ->
     startswith k (py "breathscape-site/") = false -> fs w' !! k = Some node) /\
  (forall k, fs w !! k = Some Dir -> fs w' !! k = Some Dir).
Proof.
  induction urls as [|url urls IH]; intros st w w' r; [by intros [= <- <-]|].
  cbn [for_each]. unfold bind.
  destruct (loop_body env url st w) as [w1 r1] eqn:Hbody.
  assert (Hstep : (forall k node, fs w !! k = Some node ->
             startswith k (py "breathscape-site/") = false ->
             fs w1 !! k = Some node) /\
          (forall k, fs w !! k = Some Dir -> fs w1 !! k = Some Dir)).
  { rewrite loop_body_unfold in Hbody.
    destruct (url_to_local_path url) as [local_path|e] eqn:Hpath;
      [|by injection Hbody as <- <-].
    destruct (join_output_dir _ _ Hpath) as [Hjoin _].
    destruct (download_asset env url local_path OUTPUT_DIR w) as [w0 r0] eqn:Hdl.
    destruct (download_asset_disk _ _ _ _ _ _ _ Hdl) as (Hframe & Hdirs & _).
    assert (fs w1 = fs w0) as ->.
    { destruct r0 as [[n|msg]|e]; by injection Hbody as <- <-. }
    split; [|done]. intros k node Hk Hout. apply Hframe; [done|].
    intros ->. rewrite Hjoin, startswith_app in Hout. done. }
  destruct Hstep as [Hout Hdirs].
  destruct r1 as [st1|e].
  - intros Hrest. destruct (IH _ _ _ _ Hrest) as [IHout IHdirs]. split; auto.
  - by intros [= <- <-].
Qed.

(** X4. Whatever its outcome, a run keeps every node of the disk that is
    not under [breathscape-site/], and every directory: it removes nothing,
    and changes no file outside its output directory. *)
Theorem main_keeps_outside env w w' r :
  main env w = (w', r) ->
  (forall k node, fs w !! k = Some node ->
     startswith k (py "breathscape-site/") = false -> fs w' !! k = Some node) /\
  (forall k, fs w !! k = Some Dir -> fs w' !! k = Some Dir).
Proof.
  rewrite main_unfold. cbv zeta.
  destruct (read_html env) as [html|e]; [|by intros [= <- <-]].
  destruct (OsPath.makedirs OUTPUT_DIR _) as [w1 r1] eqn:Hmk.
  pose proof (keeps_nodes_makedirs _ _ _ _ Hmk) as Hkeep. cbn [fs emit] in Hkeep.
  destruct r1 as [[]|e]; [|intros [= <- <-]; auto].
  destruct (for_each _ _ _ w1) as [w2 r2] eqn:Hloop.
  destruct (for_each_keeps _ _ _ _ _ _ Hloop) as [Hout Hdirs].
  destruct r2 as [st|e]; [|intros [= <- <-]; auto].
  destruct (OsPath.write_check env _ w2) as [[]|e] eqn:Hcheck;
    [|intros [= <- <-]; auto].
  intros [= <- <-]. cbn [fs]. split.
  - intros k node Hk Hstart. rewrite lookup_insert_ne; [auto|].
    intros <-. by vm_compute in Hstart.
  - intros k Hk. rewrite lookup_insert_ne; [auto|].
    intros <-. apply write_check_not_dir in Hcheck. auto.
Qed.

End Disk.

Lemma download_asset_stores_body_witness :
  exists w',
    download_asset (all_succeed "")
      (py "https://cdn.prod.website-files.com/site/img/logo.png")
      (py "assets/images/logo.png") OUTPUT_DIR empty_world
    = (w', Ok (Success 3)) /\
    fs w' !! py "breathscape-site/assets/images/logo.png"
    = Some (BytesFile [1; 2; 3]).
Proof.
  eexists. split; [vm_compute; reflexivity|].
  destruct (proj1 (proj2 (proj2 (download_asset_stores_body
              (all_succeed "")
              (py "https://cdn.prod.website-files.com/site/img/logo.png")
              (py "assets/images/logo.png") OUTPUT_DIR empty_world _ _
              ltac:(vm_compute; reflexivity)))) 3%nat eq_refl)
    as (content & Hget & _ & Hfile).
  injection Hget as <-. exact Hfile.
Defined.

Lemma main_keeps_outside_witness :
  exists w',
    (main (H := ascii_tables)
       (all_succeed "<img src=https://cdn.prod.website-files.com/site/img/logo.png >")
       (mkWorld {[py "notes.txt" := TextFile (py "keep me")]} [])).1 = w' /\
    fs w' !! py "notes.txt" = Some (TextFile (py "keep me")).
Proof.
  eexists. split; [reflexivity|].
  eapply (proj1 (main_keeps_outside (H := ascii_tables) _ _ _ _
                   ltac:(apply surjective_pairing))).
  - vm_compute. reflexivity.
  - vm_compute. reflexivity.
Defined.

(** *** What a completed run leaves on the disk *)

Section Site.
Context `{UrlParse.LibraryTables}.
Implicit Types w : world.

Lemma join_output_dir_inj url1 p1 url2 p2 :
  url_to_local_path url1 = Ok p1 -> url_to_local_path url2 = Ok p2 ->
  OsPath.join OUTPUT_DIR p1 = OsPath.join OUTPUT_DIR p2 -> p1 = p2.
Proof.
  intros [-> _]%join_output_dir [-> _]%join_output_dir.
  apply app_inv_head.
Qed.

(** The files of the entries the loop adds: the file of an entry holds the
    body of its URL unless a later entry has the same path. *)
Lemma for_each_assets env urls : forall st w w' st' new,
  NoDup urls ->
  (forall u, u ∈ urls -> u ∉ (url_mapping st).*1) ->
  for_each urls (loop_body env) st w = (w', Ok st') ->
  url_mapping st' = url_mapping st ++ new ->
  (forall k node, fs w !! k = Some node ->
     (forall u p, (u, p) ∈ new -> k <> OsPath.join OUTPUT_DIR p) ->
     fs w' !! k = Some node) /\
  (forall l1 u p l2, new = l1 ++ (u, p) :: l2 -> p ∉ l2.*2 ->
     exists content,
       http_get env u = Ok content /\
       fs w' !! OsPath.join OUTPUT_DIR p = Some (BytesFile content)).
Proof.
  induction urls as [|url urls IH]; intros st w w' st' new Hnd Hfresh.
  { intros [= <- <-] Hmap.
    assert (new = []) as ->.
    { apply (app_inv_head (url_mapping st)). by rewrite app_nil_r. }
    split; [done|]. intros l1 u p l2 Heq. by destruct l1. }
  cbn [for_each]. unfold bind.
  destruct (loop_body env url st w) as [w1 [st1|e]] eqn:Hbody; [|done].
  intros Hloop Hmap. apply NoDup_cons in Hnd as [Hurl Hnd].
  pose proof Hbody as Hbody'. rewrite loop_body_unfold in Hbody'.
  destruct (url_to_local_path url) as [local_path|e] eqn:Hpath; [|done].
  destruct (download_asset env url local_path OUTPUT_DIR w)
    as [w0 [[n|msg]|e]] eqn:Hdl; [| |done];
    injection Hbody' as <- <-;
    destruct (download_asset_disk _ _ _ _ _ _ _ Hdl) as (Hframe & _ & Hres).
  - destruct Hres as (content & Hget & _ & Hfile).
    assert (Hfresh1 : forall u, u ∈ urls ->
              u ∉ (dict_set (url_mapping st) url local_path).*1).
    { intros u Hu. rewrite dict_set_fresh by (apply Hfresh; by left).
      rewrite fmap_app, elem_of_app. cbn.
      intros [Hin|Hin%list_elem_of_singleton]; [|by subst].
      apply (Hfresh u); [by right | done]. }
    destruct (for_each_loop_spec env urls
                (mkLoop (dict_set (url_mapping st) url local_path)
                        (total_size st + n)) _ _ _ Hnd Hfresh1 Hloop)
      as (new' & _ & Hmap' & _ & _ & Hval & _).
    cbn [url_mapping] in Hmap'.
    rewrite dict_set_fresh in Hmap' by (apply Hfresh; by left).
    assert (new = (url, local_path) :: new') as ->.
    { apply (app_inv_head (url_mapping st)).
      by rewrite <- Hmap, Hmap', <- app_assoc. }
    destruct (IH (mkLoop (dict_set (url_mapping st) url local_path)
                         (total_size st + n)) _ _ _ new' Hnd Hfresh1 Hloop)
      as [IHframe IHfiles].
    { cbn [url_mapping]. rewrite dict_set_fresh by (apply Hfresh; by left).
      by rewrite Hmap', <- app_assoc. }
    split.
    + intros k node Hk Hother. apply IHframe.
      * cbn [fs emit]. apply Hframe; [done|].
        apply (Hother url local_path). by left.
      * intros u p Hin. apply (Hother u p). by right.
    + intros l1 u p l2 Heq Hlast. destruct l1 as [|e1 l1].
      * simplify_eq/=. exists content. split; [done|].
        apply IHframe; [done|]. intros u' p' Hin Hjoin.
        destruct (Hval _ _ Hin) as [_ Hp'].
        apply (join_output_dir_inj _ _ _ _ Hpath Hp') in Hjoin. subst p'.
        apply Hlast. by apply (list_elem_of_fmap_2 snd) in Hin.
      * simplify_eq/=. by apply (IHfiles l1 u p l2).
  - assert (Hfresh1 : forall u, u ∈ urls -> u ∉ (url_mapping st).*1).
    { intros u Hu. apply Hfresh. by right. }
    destruct (IH st _ _ _ new Hnd Hfresh1 Hloop Hmap) as [IHframe IHfiles].
    split; [|done]. intros k node Hk Hother. apply IHframe; [|done].
    cbn [fs emit]. by apply Hres.
Qed.

(** X5. At the end of a completed run the rewritten document is in
    [breathscape-site/index.html], and the file of every entry of the
    mapping holds the body received for its URL, unless a later entry has
    the same local path: then the later download has overwritten it. *)
Theorem site_on_disk env w w' r :
  main env w = (w', Ok r) ->
  fs w' !! OUTPUT_HTML = Some (TextFile (new_html r)) /\
  (forall l1 u p l2,
     url_mapping (final r) = l1 ++ (u, p) :: l2 -> p ∉ l2.*2 ->
     exists content,
       http_get env u = Ok content /\
       fs w' !! OsPath.join OUTPUT_DIR p = Some (BytesFile content)).
Proof.
  intros Hmain.
  pose proof (main_mapping _ _ _ _ Hmain) as (_ & _ & Hkeys & _).
  pose proof (main_inv _ _ _ _ Hmain) as (w1 & w2 & _ & _ & Hloop & Hnew & _).
  rewrite main_unfold in Hmain. cbv zeta in Hmain.
  destruct (read_html env) as [html|e]; [|done].
  destruct (OsPath.makedirs OUTPUT_DIR _) as [w1' [[]|e]]; [|done].
  destruct (for_each _ _ _ w1') as [w2' [st|e]] eqn:Hloop'; [|done].
  destruct (OsPath.write_check env _ w2'); [|done].
  injection Hmain as <- <-. cbn [fs new_html final html_read] in *.
  split; [apply lookup_insert_eq|].
  intros l1 u p l2 Hmap Hlast.
  assert (Hfresh : forall u0, u0 ∈ sorted (extract_cdn_urls html) ->
            u0 ∉ (url_mapping (mkLoop [] 0)).*1).
  { intros u0 _. apply not_elem_of_nil. }
  destruct (for_each_assets env _ (mkLoop [] 0) w1' w2' st (url_mapping st)
              (NoDup_sorted (extract_cdn_urls html)) Hfresh Hloop' eq_refl)
    as [_ Hfiles].
  destruct (Hfiles l1 u p l2 Hmap Hlast) as (content & Hget & Hfile).
  exists content. split; [done|].
  rewrite lookup_insert_ne; [done|].
  destruct (Hkeys u p) as [_ Hp].
  { rewrite Hmap. apply elem_of_app. right. by left. }
  intros Heq. by apply (join_output_dir _ _ Hp).
Qed.

End Site.

Lemma site_on_disk_witness :
  exists w',
    (main (H := ascii_tables)
       (all_succeed
          "https://cdn.prod.website-files.com/a/logo.png https://cdn.prod.website-files.com/b/logo.png")
       empty_world).1 = w' /\
    fs w' !! OUTPUT_HTML
      = Some (TextFile (py "assets/images/logo.png assets/images/logo.png")) /\
    fs w' !! py "breathscape-site/assets/images/logo.png"
      = Some (BytesFile [1; 2; 3]).
Proof.
  eexists. split; [reflexivity|].
  destruct (site_on_disk (H := ascii_tables)
              (all_succeed
                 "https://cdn.prod.website-files.com/a/logo.png https://cdn.prod.website-files.com/b/logo.png")
              empty_world _ _ ltac:(vm_compute; reflexivity))
    as [Hdoc Hfiles].
  split; [exact Hdoc|].
  destruct (Hfiles
              [(py "https://cdn.prod.website-files.com/a/logo.png",
                py "assets/images/logo.png")]
              (py "https://cdn.prod.website-files.com/b/logo.png")
              (py "assets/images/logo.png") [] eq_refl
              ltac:(apply not_elem_of_nil))
    as (content & Hget & Hfile).
  injection Hget as <-. exact Hfile.
Defined.

(** *** The requests and the report of a run *)

Section Report.
Context `{UrlParse.LibraryTables}.
Implicit Types w : world.
Implicit Types evs : list event.

Lemma only_mkdirs_ret {A} (a : A) : only_mkdirs (ret a).
Proof. intros w w' r [= <- <-]. exists []. by rewrite app_nil_r. Qed.

Lemma only_mkdirs_raise {A} e : only_mkdirs (raise (A := A) e).
Proof. intros w w' r [= <- <-]. exists []. by rewrite app_nil_r. Qed.

Lemma only_mkdirs_try_except {A} (body : M A) handler :
  only_mkdirs body -> (forall e, only_mkdirs (handler e)) ->
  only_mkdirs (try_except body handler).
Proof.
  intros Hbody Hhandler w w' r. unfold try_except.
  destruct (body w) as [w1 [a|e]] eqn:Hrun.
  - intros [= <- <-]. apply (Hbody _ _ _ Hrun).
  - intros Hh. destruct (Hbody _ _ _ Hrun) as (evs1 & Ht1 & Hm1).
    destruct (Hhandler _ _ _ _ Hh) as (evs2 & Ht2 & Hm2).
    exists (evs1 ++ evs2). split; [by rewrite Ht2, Ht1, app_assoc|].
    by apply Forall_app.
Qed.

Lemma only_mkdirs_mkdir name : only_mkdirs (OsPath.mkdir name).
Proof.
  intros w w' r. unfold OsPath.mkdir.
  repeat case_match; intros [= <- <-];
    (by exists []; rewrite app_nil_r) ||
    (exists [Mkdir name]; split; [done|]; repeat constructor; by exists name).
Qed.

Lemma only_mkdirs_makedirs_fuel fuel name :
  only_mkdirs (OsPath.makedirs_fuel fuel name).
Proof.
  revert name. induction fuel as [|fuel IH]; intros name;
    [apply only_mkdirs_raise|].
  cbn [OsPath.makedirs_fuel].
  destruct (OsPath.split_path name) as [head0 tail0].
  destruct (if bool_decide (tail0 = []) then OsPath.split_path head0
            else (head0, tail0)) as [head tail].
  assert (Hcreate : only_mkdirs (try_except (OsPath.mkdir name)
            (fun e w' => if OsPath.isdir name w' then (w', Ok tt)
                         else (w', Raise e)))).
  { apply only_mkdirs_try_except; [apply only_mkdirs_mkdir|].
    intros e w w' r. destruct (OsPath.isdir name w); intros [= <- <-];
      exists []; by rewrite app_nil_r. }
  assert (Hparent : only_mkdirs (try_except (OsPath.makedirs_fuel fuel head)
       (fun e => match e with
                 | Exn "FileExistsError" _ => ret tt
                 | _ => raise e
                 end))).
  { apply only_mkdirs_try_except; [apply IH|].
    intros e. repeat case_match; apply only_mkdirs_ret || apply only_mkdirs_raise. }
  intros w w' r.
  destruct (bool_decide (head <> []) && bool_decide (tail <> [])
            && negb (OsPath.exists_ head w)); [|apply Hcreate].
  destruct (try_except (OsPath.makedirs_fuel fuel head) _ w)
    as [w1 [[]|e]] eqn:Hrec; intros Hrun.
  - destruct (Hparent _ _ _ Hrec) as (evs1 & Ht1 & Hm1).
    destruct (bool_decide (tail = py ".")).
    + injection Hrun as <- <-. eauto.
    + destruct (Hcreate _ _ _ Hrun) as (evs2 & Ht2 & Hm2).
      exists (evs1 ++ evs2). split; [by rewrite Ht2, Ht1, app_assoc|].
      by apply Forall_app.
  - injection Hrun as <- <-. apply (Hparent _ _ _ Hrec).
Qed.

Lemma only_mkdirs_makedirs name : only_mkdirs (OsPath.makedirs name).
Proof. apply only_mkdirs_makedirs_fuel. Qed.

Lemma mkdirs_silent evs :
  Forall (fun e => exists d, e = Mkdir d) evs ->
  requests evs = [] /\ reports evs = [] /\ announced evs = [].
Proof.
  induction 1 as [|e evs [d ->] _ (IH1 & IH2 & IH3)]; [done|].
  unfold requests, reports, announced in *. cbn. by rewrite IH1, IH2, IH3.
Qed.

(** The effects of a download: one request, unless the directories cannot
    be made, and no line on the console. *)
Lemma download_asset_requests env url local_path output_dir w w' r :
  download_asset env url local_path output_dir w = (w', r) ->
  exists evs,
    trace w' = trace w ++ evs /\ reports evs = [] /\ announced evs = [] /\
    requests evs = if is_ok r then [url] else [].
Proof.
  rewrite download_asset_unfold. cbv zeta.
  destruct (OsPath.makedirs _ w) as [w1 [[]|e]] eqn:Hmk;
    destruct (only_mkdirs_makedirs _ _ _ _ Hmk) as (mk & Hmk1 & Hmk2);
    destruct (mkdirs_silent _ Hmk2) as (Hq & Hr & Ha).
  2:{ intros [= <- <-]. exists mk. done. }
  assert (Hreq : forall tl, requests (mk ++ tl) = requests tl).
  { intros tl. unfold requests in *. by rewrite omap_app, Hq. }
  assert (Hrep : forall tl, reports (mk ++ tl) = reports tl).
  { intros tl. unfold reports in *. by rewrite omap_app, Hr. }
  assert (Hann : forall tl, announced (mk ++ tl) = announced tl).
  { intros tl. unfold announced in *. by rewrite omap_app, Ha. }
  destruct (http_get env url) as [content|e].
  2:{ intros [= <- <-]. exists (mk ++ [HttpGet url]). cbn [emit trace].
      by rewrite Hmk1, app_assoc, Hreq, Hrep, Hann. }
  destruct (OsPath.write_check env _ _).
  - intros [= <- <-].
    exists (mk ++ [HttpGet url; WriteBytes (OsPath.join output_dir local_path) content]).
    cbn [emit trace]. rewrite Hmk1, Hreq, Hrep, Hann, <- !app_assoc. done.
  - intros [= <- <-]. exists (mk ++ [HttpGet url]). cbn [emit trace].
    by rewrite Hmk1, app_assoc, Hreq, Hrep, Hann.
Qed.

(** The loop requests the URLs in their order, each once, and prints one
    line for each. *)
Lemma for_each_requests env urls : forall st w w' r,
  for_each urls (loop_body env) st w = (w', r) ->
  exists evs,
    trace w' = trace w ++ evs /\ announced evs = [] /\
    requests evs `prefix_of` urls /\
    (is_ok r = true ->
     requests evs = urls /\ length (reports evs) = length urls).
Proof.
  induction urls as [|url urls IH]; intros st w w' r.
  { intros [= <- <-]. exists []. by rewrite app_nil_r. }
  cbn [for_each]. unfold bind.
  destruct (loop_body env url st w) as [w1 r1] eqn:Hbody.
  rewrite loop_body_unfold in Hbody.
  destruct (url_to_local_path url) as [local_path|e] eqn:Hpath.
  2:{ injection Hbody as <- <-. intros [= <- <-]. exists [].
      rewrite app_nil_r. repeat split; try done. apply prefix_nil. }
  destruct (download_asset env url local_path OUTPUT_DIR w) as [w0 r0] eqn:Hdl.
  destruct (download_asset_requests _ _ _ _ _ _ _ Hdl)
    as (evs0 & Ht0 & Hrep0 & Hann0 & Hreq0).
  destruct r0 as [o|e].
  2:{ injection Hbody as <- <-. intros [= <- <-]. exists evs0.
      simpl in Hreq0. rewrite Hreq0. repeat split; try done. apply prefix_nil. }
  simpl in Hreq0.
  assert (exists l, r1 = Ok (match o with
                             | Success n =>
                                 mkLoop (dict_set (url_mapping st) url local_path)
                                        (total_size st + n)
                             | Failure _ => st
                             end) /\
                    trace w1 = trace w0 ++ [Print l] /\
                    reports [Print l] = [l] /\ announced [Print l] = [])
    as (l & -> & Ht1 & Hrep1 & Hann1).
  { destruct o as [n|msg]; injection Hbody as <- <-; eauto. }
  intros Hrest. destruct (IH _ _ _ _ Hrest) as (evs & Ht & Hann & Hpre & Hok).
  exists (evs0 ++ [Print l] ++ evs).
  unfold requests, reports, announced in *.
  rewrite !omap_app, Hreq0, Hrep0, Hann0, Hrep1, Hann1, Hann. cbn.
  split; [by rewrite Ht, Ht1, Ht0, <- !app_assoc|]. split; [done|].
  split; [by apply prefix_cons|].
  intros Hr. destruct (Hok Hr) as [-> ->]. done.
Qed.

(** X6. The requests of a run are the extracted URLs in sorted order, each
    requested once, when the run completes, and an initial part of that
    list when it ends with an exception: nothing else is requested, and no
    URL twice. *)
Theorem requests_are_sorted_urls env w w' r html :
  read_html env = Ok html ->
  main env w = (w', r) ->
  exists evs,
    trace w' = trace w ++ evs /\
    requests evs `prefix_of` sorted (extract_cdn_urls html) /\
    NoDup (requests evs) /\
    (is_ok r = true -> requests evs = sorted (extract_cdn_urls html)).
Proof.
  intros Hread. rewrite main_unfold, Hread. cbv zeta.
  destruct (OsPath.makedirs OUTPUT_DIR _) as [w1 r1] eqn:Hmk.
  destruct (only_mkdirs_makedirs _ _ _ _ Hmk) as (mk & Hmk1 & Hmk2).
  destruct (mkdirs_silent _ Hmk2) as (Hq & _ & _). cbn [emit trace] in Hmk1.
  assert (Hnd : forall l, l `prefix_of` sorted (extract_cdn_urls html) -> NoDup l).
  { intros l [k Hk]. pose proof (NoDup_sorted (extract_cdn_urls html)) as Hs.
    rewrite Hk in Hs. by apply NoDup_app in Hs as [? _]. }
  destruct r1 as [[]|e].
  2:{ intros [= <- <-]. exists ([Print (Found (size (extract_cdn_urls html)))] ++ mk).
      unfold requests in *. rewrite omap_app, Hq. cbn.
      split; [by rewrite Hmk1, <- app_assoc|]. split; [apply prefix_nil|].
      split; [constructor | done]. }
  destruct (for_each _ _ _ w1) as [w2 r2] eqn:Hloop.
  destruct (for_each_requests _ _ _ _ _ _ Hloop) as (evs & Ht & _ & Hpre & Hok).
  assert (Hreq : forall tl,
            requests (([Print (Found (size (extract_cdn_urls html)))] ++ mk)
                        ++ evs ++ tl) = requests evs ++ requests tl).
  { intros tl. unfold requests in *. rewrite !omap_app, Hq. done. }
  destruct r2 as [st|e].
  2:{ intros [= <- <-].
      exists (([Print (Found (size (extract_cdn_urls html)))] ++ mk) ++ evs ++ []).
      rewrite Hreq, !app_nil_r.
      split; [by rewrite Ht, Hmk1, <- !app_assoc|]. split; [done|].
      split; [by apply Hnd | done]. }
  destruct (Hok eq_refl) as [Hall _].
  destruct (OsPath.write_check env _ w2).
  - intros [= <- <-]. cbn [trace].
    match goal with |- context [trace w2 ++ ?tl] =>
      exists (([Print (Found (size (extract_cdn_urls html)))] ++ mk) ++ evs ++ tl)
    end.
    rewrite Hreq. cbn [requests omap]. rewrite app_nil_r.
    split; [by rewrite Ht, Hmk1, <- !app_assoc|]. split; [done|].
    split; [by apply Hnd | done].
  - intros [= <- <-].
    exists (([Print (Found (size (extract_cdn_urls html)))] ++ mk) ++ evs ++ []).
    rewrite Hreq, !app_nil_r.
    split; [by rewrite Ht, Hmk1, <- !app_assoc|]. split; [done|].
    split; [by apply Hnd | done].
Qed.

(** X7. A completed run announces the number of extracted URLs once, and
    prints as many per-asset lines, one for each extracted URL. *)
Theorem report_accounts_for_every_url env w w' r :
  main env w = (w', Ok r) ->
  exists evs,
    trace w' = trace w ++ evs /\
    announced evs = [size (extract_cdn_urls (html_read r))] /\
    length (reports evs) = size (extract_cdn_urls (html_read r)).
Proof.
  intros (w1 & w2 & _ & Hmk & Hloop & _ & Ht)%main_inv.
  destruct (only_mkdirs_makedirs _ _ _ _ Hmk) as (mk & Hmk1 & Hmk2).
  destruct (mkdirs_silent _ Hmk2) as (_ & Hr & Ha). cbn [emit trace] in Hmk1.
  destruct (for_each_requests _ _ _ _ _ _ Hloop) as (evs & Htl & Hann & _ & Hok).
  destruct (Hok eq_refl) as [_ Hlen].
  eexists. split.
  { rewrite Ht, Htl, Hmk1, <- !app_assoc. reflexivity. }
  unfold reports, announced in *.
  rewrite !omap_app, Hr, Ha, Hann. cbn. rewrite app_nil_r. split; [done|].
  rewrite Hlen. unfold size, set_size. cbn.
  apply Permutation_length, sorted_perm.
Qed.

End Report.

Lemma requests_are_sorted_urls_witness :
  exists w' r evs,
    main (H := ascii_tables)
      (fails_on "https://cdn.prod.website-files.com/b.png"
         "https://cdn.prod.website-files.com/b.png https://cdn.prod.website-files.com/a.css")
      empty_world = (w', r) /\
    trace w' = trace empty_world ++ evs /\
    requests evs =
      [py "https://cdn.prod.website-files.com/a.css";
       py "https://cdn.prod.website-files.com/b.png"].
Proof.
  eexists _, _.
  destruct (requests_are_sorted_urls (H := ascii_tables)
              (fails_on "https://cdn.prod.website-files.com/b.png"
                 "https://cdn.prod.website-files.com/b.png https://cdn.prod.website-files.com/a.css")
              empty_world _ _ _ eq_refl ltac:(vm_compute; reflexivity))
    as (evs & Ht & _ & _ & Hall).
  exists evs. split; [vm_compute; reflexivity|]. split; [exact Ht|].
  rewrite (Hall eq_refl). vm_compute. reflexivity.
Defined.

Lemma report_accounts_for_every_url_witness :
  exists w' r evs,
    main (H := ascii_tables)
      (fails_on "https://cdn.prod.website-files.com/b.png"
         "https://cdn.prod.website-files.com/b.png https://cdn.prod.website-files.com/a.css")
      empty_world = (w', Ok r) /\
    trace w' = trace empty_world ++ evs /\
    announced evs = [2%nat] /\ length (reports evs) = 2%nat.
Proof.
  eexists _, _.
  destruct (report_accounts_for_every_url (H := ascii_tables)
              (fails_on "https://cdn.prod.website-files.com/b.png"
                 "https://cdn.prod.website-files.com/b.png https://cdn.prod.website-files.com/a.css")
              empty_world _ _ ltac:(vm_compute; reflexivity))
    as (evs & Ht & Hann & Hlen).
  exists evs. split; [vm_compute; reflexivity|]. split; [exact Ht|].
  split; [exact Hann | exact Hlen].
Defined.

(** *** What the extractor finds in the rewritten document *)

Section Remaining.
Context `{UrlParse.LibraryTables}.
Implicit Types s a b x y z u v host : pystr.

Lemma elem_of_extract_sep a t b u :
  is_terminator t = true ->
  u ∈ extract_cdn_urls (a ++ t :: b) <->
  u ∈ extract_cdn_urls a \/ u ∈ extract_cdn_urls b.
Proof.
  intros Ht. rewrite !elem_of_extract_cdn_urls. split.
  - intros (host & Hhost & Hin).
    rewrite findall_sep in Hin by (by apply class_text_hosts || done).
    apply elem_of_app in Hin as [Hin|Hin]; eauto.
  - intros [(host & Hhost & Hin)|(host & Hhost & Hin)]; exists host;
      (split; [done|]);
      rewrite findall_sep by (by apply class_text_hosts || done);
      apply elem_of_app; auto.
Qed.

Lemma extracted_occurs s u : u ∈ extract_cdn_urls s -> occurs u s.
Proof.
  intros (host & pre & _ & run & post & _ & -> & _)%extract_cdn_urls_sound.
  by exists pre, post.
Qed.

Variable html : pystr.
Hypothesis Hind : independent (extract_cdn_urls html).
Variable mapping : list (pystr * pystr).
Hypothesis Hkeys : forall u p,
  (u, p) ∈ mapping ->
  u ∈ extract_cdn_urls html /\ url_to_local_path u = Ok p.
Hypothesis Hnd : NoDup mapping.*1.

(** The URLs of a stretch are URLs of the document. *)
Lemma stretch_extracted A b B u :
  html = A ++ b ++ B -> bounded A -> stops B ->
  u ∈ extract_cdn_urls b -> u ∈ extract_cdn_urls html.
Proof.
  intros -> HA HB Hu.
  assert (Hin : u ∈ extract_cdn_urls (b ++ B)).
  { destruct B as [|t B]; [by rewrite app_nil_r|].
    apply elem_of_extract_sep; [done | by left]. }
  destruct HA as [->|(A' & t & -> & Ht)]; [done|].
  rewrite <- app_assoc. apply elem_of_extract_sep; [done | by right].
Qed.

(** In a rewritten stretch the extractor finds the URLs it found before,
    except the keys of the mapping. *)
Lemma stretch_remaining A b B u :
  html = A ++ b ++ B -> bounded A -> class_text b -> stops B ->
  u ∈ extract_cdn_urls (rewrite b mapping) <->
  u ∈ extract_cdn_urls b /\ u ∉ mapping.*1.
Proof.
  intros Hhtml HA Hb HB.
  destruct (stretch_rewrite html Hind mapping Hkeys A b B Hhtml HA Hb HB Hnd)
    as [[-> Hno]|(x & v & p & Hbx & Hv & -> & _)].
  - split; [|by intros [? _]].
    intros Hu. split; [done|]. intros Hk. apply (Hno u Hk).
    by apply extracted_occurs.
  - destruct (Hkeys _ _ Hv) as [Hve Hvp]. split.
    + intros Hu. exfalso.
      apply url_to_local_path_shape in Hvp as (dir & name & Hdir & -> & Hname).
      apply extract_cdn_urls_sound in Hu
        as (host & pre & Hhost & run & post & -> & Heq & _).
      rewrite <- !app_assoc in Heq.
      destruct (host_not_across _ _ _ _ _ _ Hhost Hdir Hname Heq) as [l Hl].
      by apply (stretch_no_host_before html Hind A b B Hhtml HA Hb HB v x host pre l).
    + intros [Hu Hnot]. exfalso. apply Hnot.
      pose proof (stretch_extracted A b B u Hhtml HA HB Hu) as Hue.
      destruct (extracted_occurs _ _ Hu) as (y & z & Hbeq).
      pose proof (stretch_url_at_end html Hind A b B Hhtml HA Hb HB u y z Hue Hbeq)
        as ->.
      rewrite app_nil_r in Hbeq.
      destruct (stretch_url_unique html Hind b u v y x Hue Hve Hbeq Hbx) as [-> _].
      by apply (list_elem_of_fmap_2 fst) in Hv.
Qed.

Lemma document_remaining s : forall A,
  html = A ++ s -> bounded A ->
  forall u,
    u ∈ extract_cdn_urls (rewrite s mapping) <->
    u ∈ extract_cdn_urls s /\ u ∉ mapping.*1.
Proof.
  remember (length s) as n eqn:Hn. revert s Hn.
  induction n as [n IH] using lt_wf_ind. intros s Hn A Hhtml HA u.
  destruct (class_run_spec s) as (post & Hs & Hrun & Hstop).
  set (b := class_run s) in *.
  assert (Hhtml' : html = A ++ b ++ post) by (by rewrite <- Hs).
  destruct post as [|t post].
  - rewrite app_nil_r in Hs. rewrite Hs.
    by apply (stretch_remaining A b []).
  - simpl in Hstop. rewrite Hs.
    rewrite (rewrite_sep_keys html mapping Hkeys) by done.
    rewrite !elem_of_extract_sep by done.
    rewrite (stretch_remaining A b (t :: post) u Hhtml' HA Hrun Hstop).
    rewrite (IH (length post)) with (A := A ++ b ++ [t]); [tauto|..].
    + subst n. rewrite Hs, length_app. simpl. lia.
    + done.
    + by rewrite Hhtml', <- !app_assoc.
    + right. exists (A ++ b), t. by rewrite <- app_assoc.
Qed.


End Remaining.

Section Rerun.
Context `{UrlParse.LibraryTables}.

(** X8. In a completed run whose extracted URLs do not occur inside one
    another, the extractor finds in the rewritten document the URLs it found
    in the document read, except those that were downloaded: the rewrite
    removes every downloaded URL, brings in no new one, and keeps the
    others. *)
Theorem remaining_urls_are_failed env w w' r :
  main env w = (w', Ok r) ->
  independent (extract_cdn_urls (html_read r)) ->
  forall u,
    u ∈ extract_cdn_urls (new_html r) <->
    u ∈ extract_cdn_urls (html_read r) /\ u ∉ (url_mapping (final r)).*1.
Proof.
  intros (Hnew & Hnd & Hkeys & _)%main_mapping Hind u. rewrite Hnew.
  apply (document_remaining (html_read r) Hind _ Hkeys Hnd (html_read r) []);
    [done | by left].
Qed.

(** X9. In such a run the rewrite is idempotent: applied to the rewritten
    document with the same mapping it changes nothing. *)
Theorem rewrite_idempotent env w w' r :
  main env w = (w', Ok r) ->
  independent (extract_cdn_urls (html_read r)) ->
  rewrite (new_html r) (url_mapping (final r)) = new_html r.
Proof.
  intros (Hnew & Hnd & Hkeys & _)%main_mapping Hind.
  destruct (rewrite_document (html_read r) Hind _ Hkeys Hnd (html_read r) [])
    as (Hgone & _); [done | by left|].
  apply rewrite_absent. intros u p Hin. destruct (Hkeys _ _ Hin) as [Hue _].
  split; [by apply (extracted_nonempty (html_read r))|].
  rewrite Hnew. apply Hgone. by apply (list_elem_of_fmap_2 fst) in Hin.
Qed.

End Rerun.

Lemma independent_pair (u v : pystr) :
  contains u v = false -> contains v u = false -> independent {[u; v]}.
Proof.
  intros Huv%not_occurs_contains Hvu%not_occurs_contains a b Ha Hb Hocc.
  apply elem_of_union in Ha as [Ha|Ha]; apply elem_of_union in Hb as [Hb|Hb];
    apply elem_of_singleton in Ha as ->; apply elem_of_singleton in Hb as ->;
    done.
Qed.

(** A document with a stylesheet that is downloaded and an image whose
    request is refused. *)
Lemma remaining_urls_are_failed_witness :
  exists w' r,
    main (H := ascii_tables)
      (fails_on "https://cdn.prod.website-files.com/b.png"
         "https://cdn.prod.website-files.com/b.png https://cdn.prod.website-files.com/a.css")
      empty_world = (w', Ok r) /\
    (py "https://cdn.prod.website-files.com/b.png" ∈ extract_cdn_urls (new_html r) <->
     py "https://cdn.prod.website-files.com/b.png" ∈ extract_cdn_urls (html_read r) /\
     py "https://cdn.prod.website-files.com/b.png" ∉ (url_mapping (final r)).*1).
Proof.
  eexists _, _. split; [vm_compute; reflexivity|].
  eapply (remaining_urls_are_failed (H := ascii_tables)
            (fails_on "https://cdn.prod.website-files.com/b.png"
               "https://cdn.prod.website-files.com/b.png https://cdn.prod.website-files.com/a.css")
            empty_world).
  - vm_compute. reflexivity.
  - cbn [html_read].
    replace (extract_cdn_urls _)
      with ({[py "https://cdn.prod.website-files.com/b.png";
              py "https://cdn.prod.website-files.com/a.css"]} : gset pystr)
      by (vm_compute; reflexivity).
    apply independent_pair; vm_compute; reflexivity.
Defined.

Lemma rewrite_idempotent_witness :
  exists w' r,
    main (H := ascii_tables)
      (fails_on "https://cdn.prod.website-files.com/b.png"
         "https://cdn.prod.website-files.com/b.png https://cdn.prod.website-files.com/a.css")
      empty_world = (w', Ok r) /\
    rewrite (new_html r) (url_mapping (final r)) = new_html r.
Proof.
  eexists _, _. split; [vm_compute; reflexivity|].
  eapply (rewrite_idempotent (H := ascii_tables)
            (fails_on "https://cdn.prod.website-files.com/b.png"
               "https://cdn.prod.website-files.com/b.png https://cdn.prod.website-files.com/a.css")
            empty_world).
  - vm_compute. reflexivity.
  - cbn [html_read].
    replace (extract_cdn_urls _)
      with ({[py "https://cdn.prod.website-files.com/b.png";
              py "https://cdn.prod.website-files.com/a.css"]} : gset pystr)
      by (vm_compute; reflexivity).
    apply independent_pair; vm_compute; reflexivity.
Defined.

(** *** The order of the mapping and the byte total *)

Section Order.
Context `{UrlParse.LibraryTables}.

Lemma for_each_order env urls : forall st w w' st',
  NoDup urls ->
  (forall u, u ∈ urls -> u ∉ (url_mapping st).*1) ->
  for_each urls (loop_body env) st w = (w', Ok st') ->
  exists new,
    url_mapping st' = url_mapping st ++ new /\
    new.*1 `sublist_of` urls /\
    (forall u, u ∈ new.*1 -> is_ok (http_get env u) = true) /\
    total_size st' = (total_size st + sum_list (body_length env <$> new.*1))%nat.
Proof.
  induction urls as [|url urls IH]; intros st w w' st' Hnd Hfresh.
  { intros [= <- <-]. exists []. rewrite app_nil_r. cbn.
    split; [done|]. split; [done|]. split; [by intros u ?%elem_of_nil | lia]. }
  cbn [for_each]. unfold bind.
  destruct (loop_body env url st w) as [w1 [st1|e]] eqn:Hbody; [|done].
  intros Hloop. apply NoDup_cons in Hnd as [Hurl Hnd].
  rewrite loop_body_unfold in Hbody.
  destruct (url_to_local_path url) as [local_path|e] eqn:Hpath; [|done].
  destruct (download_asset env url local_path OUTPUT_DIR w)
    as [w0 [[n|msg]|e]] eqn:Hdl; [| |done]; injection Hbody as <- <-.
  - destruct (download_asset_effects _ _ _ _ _ _ _ Hdl)
      as (_ & _ & _ & content & Hget & -> & _).
    assert (Hfresh1 : forall u, u ∈ urls ->
              u ∉ (dict_set (url_mapping st) url local_path).*1).
    { intros u Hu. rewrite dict_set_fresh by (apply Hfresh; by left).
      rewrite fmap_app, elem_of_app. cbn.
      intros [Hin|Hin%list_elem_of_singleton]; [|by subst].
      apply (Hfresh u); [by right | done]. }
    destruct (IH (mkLoop (dict_set (url_mapping st) url local_path)
                         (total_size st + length content)) _ _ _
                Hnd Hfresh1 Hloop) as (new & Hmap & Hsub & Hok & Htot).
    cbn [url_mapping total_size] in Hmap, Htot.
    rewrite dict_set_fresh in Hmap by (apply Hfresh; by left).
    exists ((url, local_path) :: new).
    split; [by rewrite Hmap, <- app_assoc|]. cbn. split; [by apply sublist_skip|].
    split.
    + intros u [->|Hu]%elem_of_cons; [by rewrite Hget | by apply Hok].
    + rewrite Htot. unfold body_length at 2. rewrite Hget. lia.
  - assert (Hfresh1 : forall u, u ∈ urls -> u ∉ (url_mapping st).*1).
    { intros u Hu. apply Hfresh. by right. }
    destruct (IH _ _ _ _ Hnd Hfresh1 Hloop) as (new & Hmap & Hsub & Hok & Htot).
    exists new. split; [done|]. split; [by apply sublist_cons | done].
Qed.

(** X10. In a completed run the keys of the mapping stand in the order of
    the sorted URLs, so that the replacements are made in that order; the
    request for each key returned a body; and the byte total is the sum of
    the lengths of those bodies. *)
Theorem mapping_in_sorted_order env w w' r :
  main env w = (w', Ok r) ->
  (url_mapping (final r)).*1 `sublist_of` sorted (extract_cdn_urls (html_read r)) /\
  (forall u, u ∈ (url_mapping (final r)).*1 ->
     exists content, http_get env u = Ok content) /\
  total_size (final r) =
    sum_list (body_length env <$> (url_mapping (final r)).*1).
Proof.
  intros (w1 & w2 & _ & _ & Hloop & _)%main_inv.
  destruct (for_each_order env _ (mkLoop [] 0) w1 w2 (final r)
              (NoDup_sorted (extract_cdn_urls (html_read r))))
    as (new & Hmap & Hsub & Hok & Htot); [|done|].
  { intros u _. apply not_elem_of_nil. }
  cbn in Hmap, Htot. rewrite Hmap. split; [done|]. split; [|done].
  intros u Hu. apply Hok in Hu. by apply is_ok_spec in Hu.
Qed.

End Order.

Lemma mapping_in_sorted_order_witness :
  exists w' r,
    main (H := ascii_tables)
      (fails_on "https://cdn.prod.website-files.com/b.png"
         "https://cdn.prod.website-files.com/c.js https://cdn.prod.website-files.com/b.png https://cdn.prod.website-files.com/a.css")
      empty_world = (w', Ok r) /\
    (url_mapping (final r)).*1 =
      [py "https://cdn.prod.website-files.com/a.css";
       py "https://cdn.prod.website-files.com/c.js"] /\
    total_size (final r) =
      sum_list (body_length
        (fails_on "https://cdn.prod.website-files.com/b.png"
           "https://cdn.prod.website-files.com/c.js https://cdn.prod.website-files.com/b.png https://cdn.prod.website-files.com/a.css")
        <$> (url_mapping (final r)).*1).
Proof.
  eexists _, _. split; [vm_compute; reflexivity|]. split; [vm_compute; reflexivity|].
  eapply (mapping_in_sorted_order (H := ascii_tables)
            (fails_on "https://cdn.prod.website-files.com/b.png"
               "https://cdn.prod.website-files.com/c.js https://cdn.prod.website-files.com/b.png https://cdn.prod.website-files.com/a.css")
            empty_world).
  vm_compute. reflexivity.
Defined.

(** *** How a run can end with an exception *)

Section Ending.
Context `{UrlParse.LibraryTables}.

Lemma extracted_maps html u :
  u ∈ extract_cdn_urls html -> exists p, url_to_local_path u = Ok p.
Proof.
  intros (host & pre & Hhost & run & post & -> & _ & _ & Hrun & _)%extract_cdn_urls_sound.
  destruct (urlparse_path_match host run Hhost Hrun) as [parsed Hparsed].
  rewrite (url_to_local_path_unfold _ _ Hparsed). eauto.
Qed.

(** A turn of the loop raises only when the mapper does, or when the
    directory of the asset cannot be made. *)
Lemma for_each_raise env urls : forall st w w' e,
  for_each urls (loop_body env) st w = (w', Raise e) ->
  exists u, u ∈ urls /\
    (url_to_local_path u = Raise e \/
     exists p w0,
       url_to_local_path u = Ok p /\
       OsPath.makedirs (OsPath.dirname (OsPath.join OUTPUT_DIR p)) w0
         = (w', Raise e)).
Proof.
  induction urls as [|url urls IH]; intros st w w' e; [done|].
  cbn [for_each]. unfold bind.
  destruct (loop_body env url st w) as [w1 [st1|e1]] eqn:Hbody.
  - intros (u & Hu & Hend)%IH. exists u. split; [by right | done].
  - intros [= <- <-]. exists url. split; [by left|].
    rewrite loop_body_unfold in Hbody.
    destruct (url_to_local_path url) as [p|e0] eqn:Hp.
    2:{ injection Hbody as _ ->. by left. }
    right. exists p, w. split; [done|].
    destruct (download_asset env url p OUTPUT_DIR w) as [w0 [[n|msg]|e0]] eqn:Hdl;
      [done..|].
    injection Hbody as <- <-.
    rewrite download_asset_unfold in Hdl. cbv zeta in Hdl.
    destruct (OsPath.makedirs _ w) as [w2 [[]|e2]];
      [|by injection Hdl as -> ->].
    destruct (http_get env url); [|done].
    by destruct (OsPath.write_check env _ _).
Qed.

(** X11. A run that has read its input ends with an exception only when a
    directory cannot be made (the output directory, or the directory of the
    local path of an extracted URL) or when the rewritten document cannot be
    written: the exception is the one of that call.  The mapper does not
    raise on an extracted URL, and no failure of a request or of the write
    of an asset ends the run. *)
Theorem run_ends_only_on_disk_errors env w w' e html :
  read_html env = Ok html ->
  main env w = (w', Raise e) ->
  (exists w0, OsPath.makedirs OUTPUT_DIR w0 = (w', Raise e)) \/
  (exists u p w0,
     u ∈ extract_cdn_urls html /\ url_to_local_path u = Ok p /\
     OsPath.makedirs (OsPath.dirname (OsPath.join OUTPUT_DIR p)) w0
       = (w', Raise e)) \/
  OsPath.write_check env OUTPUT_HTML w' = Raise e.
Proof.
  intros Hread. rewrite main_unfold, Hread. cbv zeta.
  destruct (OsPath.makedirs OUTPUT_DIR _) as [w1 [[]|e1]] eqn:Hmk.
  2:{ intros [= <- <-]. left. eauto. }
  destruct (for_each _ _ _ w1) as [w2 [st|e2]] eqn:Hloop.
  - fold OUTPUT_HTML.
    destruct (OsPath.write_check env OUTPUT_HTML w2) eqn:Hwrite; [done|].
    intros [= <- <-]. by right; right.
  - intros [= <- <-]. right; left.
    apply for_each_raise in Hloop as (u & Hu%elem_of_sorted & Hend).
    destruct (extracted_maps _ _ Hu) as [p Hp].
    destruct Hend as [Hraise|(p' & w0 & Hp' & Hmk')]; [congruence|].
    exists u, p', w0. done.
Qed.

End Ending.

(** The first asset is written to the file [assets/images], the directory
    of the second one. *)
Lemma run_ends_only_on_disk_errors_witness :
  exists w',
    main (H := ascii_tables)
      (all_succeed
         "https://cdn.prod.website-files.com/images https://cdn.prod.website-files.com/x/logo.png")
      empty_world
    = (w', Raise (Exn "FileExistsError" (py "breathscape-site/assets/images"))) /\
    ((exists w0, OsPath.makedirs OUTPUT_DIR w0
        = (w', Raise (Exn "FileExistsError" (py "breathscape-site/assets/images")))) \/
     (exists u p w0,
        u ∈ extract_cdn_urls
              (py "https://cdn.prod.website-files.com/images https://cdn.prod.website-files.com/x/logo.png") /\
        url_to_local_path (H := ascii_tables) u = Ok p /\
        OsPath.makedirs (OsPath.dirname (OsPath.join OUTPUT_DIR p)) w0
          = (w', Raise (Exn "FileExistsError" (py "breathscape-site/assets/images")))) \/
     OsPath.write_check
       (all_succeed
          "https://cdn.prod.website-files.com/images https://cdn.prod.website-files.com/x/logo.png")
       OUTPUT_HTML w'
     = Raise (Exn "FileExistsError" (py "breathscape-site/assets/images"))).
Proof.
  eexists. split; [vm_compute; reflexivity|].
  apply (run_ends_only_on_disk_errors (H := ascii_tables)
           (all_succeed
              "https://cdn.prod.website-files.com/images https://cdn.prod.website-files.com/x/logo.png")
           empty_world).
  - reflexivity.
  - vm_compute. reflexivity.
Defined.
